(** * useCachedVideo: a shallow embedding of the caching hook

    The hook of [useCachedVideo.ts] is embedded as follows.

    - JavaScript strings are [string]s; the separators the code looks for
      ('/', '.', '?') are ASCII, so byte-wise splitting agrees with the
      code-unit-wise splitting of the engine.
    - A [number] that holds a byte count is a [Z], a [number] that holds
      megabytes or a modification time is a [Q]; [Date.now()] is an [N].
      Division by [1024 * 1024], subtraction of such quotients and comparison
      are exact on doubles for byte counts below 2^53, so the rationals follow
      the code there.  Where a quotient can be NaN or infinite (the progress
      callback with an expected size of 0) the embedding says so with [Num].
    - Every call into expo-file-system, every React state setter, the clock
      and the console are operations [Op] of a free monad [Prog]; an [async]
      function is a [Prog], [await] is a [Vis] node, [throw] is [Throw],
      [try/catch/finally] are the combinators [try_catch] and [finally].
    - The storage and network behind expo-file-system are an interface,
      [StorageGateway]; the theorems that do not depend on what the file
      system holds are proved for every implementation of it, faults
      included.  [Disk] is one implementation: a single cache directory with
      deletion faults and a scripted network.
    - Concurrency is cooperative: a task runs from one [await] to the next,
      and [schedule] interleaves the pending tasks in any order. *)

From Stdlib Require Import String Ascii List Bool ZArith NArith QArith Qround.
From Stdlib Require Import DecimalString DecimalN Lia Lqa Permutation Sorted.
Import ListNotations.

Local Open Scope string_scope.
Local Open Scope list_scope.

(** ** JavaScript string primitives used by the hook *)

Module JsString.

(** [s.split(sep)] for a one-character separator: never empty. *)
Fixpoint split (sep : ascii) (s : string) : list string :=
  match s with
  | EmptyString => [EmptyString]
  | String c rest =>
      if Ascii.eqb c sep then EmptyString :: split sep rest
      else match split sep rest with
           | seg :: segs => String c seg :: segs
           | [] => [String c EmptyString]
           end
  end.

(** [s.includes(c)] for a one-character needle. *)
Fixpoint includes (c : ascii) (s : string) : bool :=
  match s with
  | EmptyString => false
  | String a rest => Ascii.eqb a c || includes c rest
  end.

(** [parts[parts.length - 1]] and [parts[0]] on the result of a split. *)
Definition lastOf (parts : list string) : string := last parts EmptyString.
Definition firstOf (parts : list string) : string := hd EmptyString parts.

(** The decimal rendering of an integer inside a template literal. *)
Definition ofNumber (n : N) : string := NilEmpty.string_of_uint (N.to_uint n).

(** Truthiness of a string: only the empty string is falsy. *)
Definition truthy (s : string) : bool := negb (s =? "").

(** [path.startsWith(prefix)], returning what follows the prefix. *)
Fixpoint stripPrefix (prefix s : string) : option string :=
  match prefix with
  | EmptyString => Some s
  | String a prefix' =>
      match s with
      | EmptyString => None
      | String b s' => if Ascii.eqb a b then stripPrefix prefix' s' else None
      end
  end.

End JsString.
Import JsString.

(** ** Values *)

(** What a [catch] clause can receive: an [Error] carrying a message, or any
    other thrown value. *)
Inductive Thrown : Type :=
| ErrorObject (message : string)
| OtherValue (description : string).

(** [err instanceof Error ? err.message : fallback] *)
Definition messageOr (fallback : string) (err : Thrown) : string :=
  match err with
  | ErrorObject message => message
  | OtherValue _ => fallback
  end.

(** expo-file-system's [FileInfo]: a union of the two shapes
    [{exists: true, uri, size, isDirectory, modificationTime}] and
    [{exists: false, uri, isDirectory: false}]. *)
Inductive FileInfo : Type :=
| Absent (uri : string)
| Present (uri : string) (size : Z) (isDirectory : bool) (modificationTime : Q).

(** [{ ...info, name: file, path: filePath }] *)
Record NamedInfo : Type := mkNamedInfo {
  info : FileInfo;
  name : string;
  path : string
}.

Definition exists_ (f : NamedInfo) : bool :=
  match info f with Present _ _ _ _ => true | Absent _ => false end.

Definition isDirectory_ (f : NamedInfo) : bool :=
  match info f with Present _ _ d _ => d | Absent _ => false end.

(** [file.exists && 'size' in file ? file.size : 0] *)
Definition sizeOf (f : NamedInfo) : Z :=
  match info f with Present _ size _ _ => size | Absent _ => 0%Z end.

(** [file.exists && 'modificationTime' in file] *)
Definition hasModificationTime (f : NamedInfo) : bool :=
  match info f with Present _ _ _ _ => true | Absent _ => false end.

(** [a.exists && 'modificationTime' in a ? a.modificationTime : 0] *)
Definition timeOf (f : NamedInfo) : Q :=
  match info f with Present _ _ _ t => t | Absent _ => 0%Q end.

(** expo-video's [VideoSource], as far as the hook fills it. *)
Record VideoSource : Type := mkVideoSource {
  uri : string;
  useCaching : option bool
}.

Record CachedVideoSource : Type := mkCachedVideoSource {
  source_uri : option string;          (* string | null *)
  source_useCaching : option bool      (* useCaching?: boolean *)
}.

Record UseCachedVideoOptions : Type := mkUseCachedVideoOptions {
  opt_enableCaching : option bool;
  opt_cacheDirectory : option string;
  opt_maxCacheSize : option Q;
  opt_enablePreload : option bool
}.

(** [Required<UseCachedVideoOptions>] *)
Record Options : Type := mkOptions {
  enableCaching : bool;
  cacheDirectory : string;
  maxCacheSize : Q;                    (* in MB *)
  enablePreload : bool
}.

Definition DEFAULT_OPTIONS : Options :=
  {| enableCaching := true;
     cacheDirectory := "videos";
     maxCacheSize := 500;
     enablePreload := false |}.

(** [{ ...DEFAULT_OPTIONS, ...options }] *)
Definition mergeOptions (options : UseCachedVideoOptions) : Options :=
  let pick {T} (o : option T) (d : T) := match o with Some v => v | None => d end in
  {| enableCaching := pick (opt_enableCaching options) (enableCaching DEFAULT_OPTIONS);
     cacheDirectory := pick (opt_cacheDirectory options) (cacheDirectory DEFAULT_OPTIONS);
     maxCacheSize := pick (opt_maxCacheSize options) (maxCacheSize DEFAULT_OPTIONS);
     enablePreload := pick (opt_enablePreload options) (enablePreload DEFAULT_OPTIONS) |}.

(** The argument of the download progress callback. *)
Record DownloadProgressData : Type := mkProgress {
  totalBytesWritten : Z;
  totalBytesExpectedToWrite : Z
}.

(** The value handed to [setCacheProgress]: the integer [Math.round]
    returns, or [NotFinite] when its argument is NaN or infinite. *)
Inductive Num : Type :=
| Finite (z : Z)
| NotFinite.

(** [Math.round]: the nearest integer, halves going up. *)
Definition Math_round (q : Q) : Z := Qfloor (q + (1 # 2)).

(** The body of the progress callback:
    [Math.round(totalBytesWritten / totalBytesExpectedToWrite * 100)]. *)
Definition progressPercent (data : DownloadProgressData) : Num :=
  if (totalBytesExpectedToWrite data =? 0)%Z then NotFinite
  else
    let progress :=
      (inject_Z (totalBytesWritten data) / inject_Z (totalBytesExpectedToWrite data))%Q in
    Finite (Math_round (progress * 100)).

(** ** Key resolution *)

(** [getCacheFilename], with the value [Date.now()] returned to it made an
    argument. *)
Definition getCacheFilename (timestamp : N) (url : string) : string :=
  let urlParts := split "/" url in
  let filename := lastOf urlParts in
  if negb (includes "." filename) then
    ("video_" ++ ofNumber timestamp ++ ".mp4")%string
  else if includes "?" filename then firstOf (split "?" filename)
  else filename.

(** The final segment with its query string removed, whatever it contains:
    the segment the specification's resolver inspects. *)
Definition strippedSegment (url : string) : string :=
  firstOf (split "?" (lastOf (split "/" url))).

(** ** Effects *)

Inductive Op : Type :=
| SetVideoSource (v : VideoSource)
| SetIsLoading (b : bool)
| SetError (e : option string)
| SetCacheProgress (n : Num)
| SetIsCached (b : bool)
| DateNow
| ConsoleWarn (label : string) (err : Thrown)
| ConsoleError (label : string) (err : Thrown)
| GetInfoAsync (path : string)
| ReadDirectoryAsync (path : string)
| MakeDirectoryAsync (path : string)
| DeleteAsync (path : string)
| DownloadAsync (url dest : string)
| Spawn (url : string).               (* downloadVideo(url), not awaited *)

(** What each operation hands back.  A rejected promise is an [inl]. The
    download reports the progress events it delivered and then either throws
    or returns [result?.uri] ([None] when there is no result). *)
Definition Resp (op : Op) : Type :=
  match op with
  | DateNow => N
  | GetInfoAsync _ => (Thrown + FileInfo)%type
  | ReadDirectoryAsync _ => (Thrown + list string)%type
  | MakeDirectoryAsync _ => (Thrown + unit)%type
  | DeleteAsync _ => (Thrown + unit)%type
  | DownloadAsync _ _ => (list DownloadProgressData * (Thrown + option string))%type
  | _ => unit
  end.

(** The operations whose result is awaited: the task is suspended there. *)
Definition awaited (op : Op) : bool :=
  match op with
  | GetInfoAsync _ | ReadDirectoryAsync _ | MakeDirectoryAsync _
  | DeleteAsync _ | DownloadAsync _ _ => true
  | _ => false
  end.

Inductive Prog (A : Type) : Type :=
| Ret (a : A)
| Throw (e : Thrown)
| Vis (op : Op) (k : Resp op -> Prog A).

Arguments Ret {A} a.
Arguments Throw {A} e.
Arguments Vis {A} op k.

Fixpoint bind {A B : Type} (p : Prog A) (f : A -> Prog B) : Prog B :=
  match p with
  | Ret a => f a
  | Throw e => Throw e
  | Vis op k => Vis op (fun x => bind (k x) f)
  end.

Declare Scope prog_scope.
Delimit Scope prog_scope with prog.
Notation "x <- p ;; q" := (bind p (fun x => q))
  (at level 61, p at next level, right associativity) : prog_scope.
Notation "p ;; q" := (bind p (fun _ => q))
  (at level 61, right associativity) : prog_scope.
Local Open Scope prog_scope.

(** [try { p } catch (err) { handler err }] *)
Fixpoint try_catch {A : Type} (p : Prog A) (handler : Thrown -> Prog A) : Prog A :=
  match p with
  | Ret a => Ret a
  | Throw e => handler e
  | Vis op k => Vis op (fun x => try_catch (k x) handler)
  end.

(** [try { p } finally { cleanup }] *)
Fixpoint finally {A : Type} (p : Prog A) (cleanup : Prog unit) : Prog A :=
  match p with
  | Ret a => cleanup ;; Ret a
  | Throw e => cleanup ;; Throw e
  | Vis op k => Vis op (fun x => finally (k x) cleanup)
  end.

(** [for (const x of xs) body(x)] and [Promise.all(xs.map(body))]. *)
Fixpoint forEach {T : Type} (body : T -> Prog unit) (xs : list T) : Prog unit :=
  match xs with
  | [] => Ret tt
  | x :: rest => body x ;; forEach body rest
  end.

Fixpoint mapAll {T U : Type} (body : T -> Prog U) (xs : list T) : Prog (list U) :=
  match xs with
  | [] => Ret []
  | x :: rest => y <- body x ;; ys <- mapAll body rest ;; Ret (y :: ys)
  end.

(** An operation that may reject. *)
Definition orThrow {A : Type} (r : Thrown + A) : Prog A :=
  match r with
  | inl e => Throw e
  | inr a => Ret a
  end.

Definition setVideoSource (v : VideoSource) : Prog unit := Vis (SetVideoSource v) Ret.
Definition setIsLoading (b : bool) : Prog unit := Vis (SetIsLoading b) Ret.
Definition setError (e : option string) : Prog unit := Vis (SetError e) Ret.
Definition setCacheProgress (n : Num) : Prog unit := Vis (SetCacheProgress n) Ret.
Definition setIsCached (b : bool) : Prog unit := Vis (SetIsCached b) Ret.
Definition dateNow : Prog N := Vis DateNow Ret.
Definition consoleWarn (label : string) (err : Thrown) : Prog unit :=
  Vis (ConsoleWarn label err) Ret.
Definition consoleError (label : string) (err : Thrown) : Prog unit :=
  Vis (ConsoleError label err) Ret.
Definition getInfoAsync (path : string) : Prog FileInfo :=
  Vis (GetInfoAsync path) orThrow.
Definition readDirectoryAsync (path : string) : Prog (list string) :=
  Vis (ReadDirectoryAsync path) orThrow.
Definition makeDirectoryAsync (path : string) : Prog unit :=
  Vis (MakeDirectoryAsync path) orThrow.
Definition deleteAsync (path : string) : Prog unit :=
  Vis (DeleteAsync path) orThrow.
Definition spawn (url : string) : Prog unit := Vis (Spawn url) Ret.

(** [createDownloadResumable(url, dest, {}, callback).downloadAsync()]: the
    callback runs for every progress event, then the promise settles. *)
Definition downloadAsync (url dest : string)
    (callback : DownloadProgressData -> Prog unit) : Prog (option string) :=
  Vis (DownloadAsync url dest)
      (fun r => forEach callback (fst r) ;; orThrow (snd r)).

(** ** Sorting by modification time

    [Array.prototype.sort] is stable, and the comparator [timeA - timeB]
    orders by modification time; a stable insertion sort returns the same
    array. *)

Fixpoint insertByTime (f : NamedInfo) (sorted : list NamedInfo) : list NamedInfo :=
  match sorted with
  | [] => [f]
  | g :: rest =>
      if Qle_bool (timeOf f) (timeOf g) then f :: g :: rest
      else g :: insertByTime f rest
  end.

Fixpoint sortByTime (files : list NamedInfo) : list NamedInfo :=
  match files with
  | [] => []
  | f :: rest => insertByTime f (sortByTime rest)
  end.

(** The order the comparator induces: [a] was modified no later than [b]. *)
Definition olderOrSame (a b : NamedInfo) : Prop := (timeOf a <= timeOf b)%Q.

Definition strictlyOlder (a b : NamedInfo) : Prop := (timeOf a < timeOf b)%Q.

(** [bytes / (1024 * 1024)] *)
Definition toMB (bytes : Z) : Q := (inject_Z bytes / (1024 * 1024))%Q.

(** [files.reduce((sum, file) => sum + size(file), 0)] *)
Definition totalSizeOf (files : list NamedInfo) : Z :=
  fold_left (fun sum file => (sum + sizeOf file)%Z) files 0%Z.

(** The bytes of a list of files, summed from the right. *)
Definition sumSizes (files : list NamedInfo) : Z :=
  fold_right (fun file sum => (sizeOf file + sum)%Z) 0%Z files.

(** ** The hook *)

(** What the functions of one hook instance close over: the arguments of
    [useCachedVideo(source, options)], with the defaults merged in, and
    [FileSystem.documentDirectory]. *)
Class Closure : Type := {
  documentDirectory : string;
  mergedOptions : Options;
  source : CachedVideoSource
}.

Section Hook.

Context {closure : Closure}.

Definition cacheDir : string :=
  (documentDirectory ++ cacheDirectory mergedOptions ++ "/")%string.

Definition getCacheFilePath (url : string) : Prog string :=
  timestamp <- dateNow ;;
  Ret (cacheDir ++ getCacheFilename timestamp url)%string.

Definition checkIfCached (url : string) : Prog bool :=
  try_catch
    (filePath <- getCacheFilePath url ;;
     fileInfo <- getInfoAsync filePath ;;
     Ret (match fileInfo with Present _ _ _ _ => true | Absent _ => false end))
    (fun error =>
       consoleWarn "Error checking cache:" error ;;
       Ret false).

Definition ensureCacheDirectory : Prog unit :=
  try_catch
    (dirInfo <- getInfoAsync cacheDir ;;
     match dirInfo with
     | Absent _ => makeDirectoryAsync cacheDir
     | Present _ _ _ _ => Ret tt
     end)
    (fun error =>
       consoleError "Error creating cache directory:" error ;;
       Throw error).

(** The deletion loop of [manageCacheSize]. *)
Fixpoint evict (sortedFiles : list NamedInfo) (currentSize : Q) : Prog unit :=
  match sortedFiles with
  | [] => Ret tt
  | file :: rest =>
      if Qle_bool currentSize (maxCacheSize mergedOptions * (8 # 10)) then Ret tt
      else
        deleteAsync (path file) ;;
        evict rest (currentSize - toMB (sizeOf file))
  end.

Definition statFile (file : string) : Prog NamedInfo :=
  let filePath := (cacheDir ++ file)%string in
  fileInfo <- getInfoAsync filePath ;;
  Ret {| info := fileInfo; name := file; path := filePath |}.

Definition manageCacheSize : Prog unit :=
  try_catch
    (files <- readDirectoryAsync cacheDir ;;
     fileInfos <- mapAll statFile files ;;
     let existingFiles :=
       filter (fun file => exists_ file && negb (isDirectory_ file)) fileInfos in
     let totalSize := totalSizeOf existingFiles in
     let totalSizeMB := toMB totalSize in
     if negb (Qle_bool totalSizeMB (maxCacheSize mergedOptions)) then
       let sortedFiles := sortByTime (filter hasModificationTime existingFiles) in
       evict sortedFiles totalSizeMB
     else Ret tt)
    (fun error => consoleWarn "Error managing cache size:" error).

Definition downloadVideo (url : string) : Prog (option string) :=
  finally
    (try_catch
       (setIsLoading true ;;
        setError None ;;
        setCacheProgress (Finite 0) ;;
        ensureCacheDirectory ;;
        manageCacheSize ;;
        filePath <- getCacheFilePath url ;;
        cached <- checkIfCached url ;;
        if cached then
          setIsCached true ;;
          Ret (Some filePath)
        else
          result <- downloadAsync url filePath
                      (fun downloadProgress =>
                         setCacheProgress (progressPercent downloadProgress)) ;;
          match result with
          | Some resultUri =>
              if truthy resultUri then
                setIsCached true ;;
                setCacheProgress (Finite 100) ;;
                Ret (Some resultUri)
              else Throw (ErrorObject "Download failed")
          | None => Throw (ErrorObject "Download failed")
          end)
       (fun err =>
          let errorMessage := messageOr "Download failed" err in
          setError (Some errorMessage) ;;
          consoleError "Error downloading video:" err ;;
          Ret None))
    (setIsLoading false).

Definition preloadVideo (url : string) : Prog (option string) :=
  if negb (enableCaching mergedOptions) then Ret None
  else downloadVideo url.

Definition clearCache : Prog unit :=
  try_catch
    (dirInfo <- getInfoAsync cacheDir ;;
     match dirInfo with
     | Present _ _ _ _ => deleteAsync cacheDir
     | Absent _ => Ret tt
     end ;;
     setIsCached false ;;
     setCacheProgress (Finite 0))
    (fun error =>
       consoleError "Error clearing cache:" error ;;
       setError (Some "Failed to clear cache")).

(** [source.useCaching === false] *)
Definition cachingRefused : bool :=
  match source_useCaching source with
  | Some false => true
  | _ => false
  end.

(** The body of the main effect. *)
Definition handleVideoSource : Prog unit :=
  match source_uri source with
  | None => setVideoSource {| uri := ""; useCaching := None |}
  | Some sourceUri =>
      if negb (truthy sourceUri) then
        setVideoSource {| uri := ""; useCaching := None |}
      else if negb (enableCaching mergedOptions) || cachingRefused then
        setVideoSource {| uri := sourceUri; useCaching := Some false |}
      else
        finally
          (try_catch
             (setIsLoading true ;;
              setError None ;;
              cached <- checkIfCached sourceUri ;;
              if cached then
                cachedPath <- getCacheFilePath sourceUri ;;
                setVideoSource {| uri := cachedPath; useCaching := Some false |} ;;
                setIsCached true
              else
                setVideoSource {| uri := sourceUri; useCaching := Some false |} ;;
                setIsCached false ;;
                if enablePreload mergedOptions then spawn sourceUri else Ret tt)
             (fun err =>
                let errorMessage := messageOr "Unknown error" err in
                setError (Some errorMessage) ;;
                setVideoSource {| uri := sourceUri; useCaching := Some false |}))
          (setIsLoading false)
  end.

End Hook.

Arguments checkIfCached : simpl never.
Arguments ensureCacheDirectory : simpl never.
Arguments manageCacheSize : simpl never.
Arguments downloadAsync : simpl never.

(** ** The state of a hook instance and of its surroundings *)

(** The five [useState] cells. *)
Record HookState : Type := mkHookState {
  videoSource : VideoSource;
  isLoading : bool;
  error : option string;
  cacheProgress : Num;
  isCached : bool
}.

Definition initialHookState : HookState :=
  {| videoSource := {| uri := ""; useCaching := None |};
     isLoading := false;
     error := None;
     cacheProgress := Finite 0;
     isCached := false |}.

Inductive Outcome (A : Type) : Type :=
| Resolved (a : A)
| Rejected (e : Thrown).

Arguments Resolved {A} a.
Arguments Rejected {A} e.

(** What the surroundings were asked, and what they answered, in order. *)
Inductive Event : Type :=
| Stat (path : string) (r : Thrown + FileInfo)
| Listed (path : string) (r : Thrown + list string)
| MadeDirectory (path : string) (r : Thrown + unit)
| Deleted (path : string) (r : Thrown + unit)
| Downloaded (url dest : string)
    (r : list DownloadProgressData * (Thrown + option string))
| Warned (label : string) (err : Thrown)
| ErrorLogged (label : string) (err : Thrown).

Definition isDownload (ev : Event) : bool :=
  match ev with Downloaded _ _ _ => true | _ => false end.

Definition isDownloadOf (url : string) (ev : Event) : bool :=
  match ev with Downloaded u _ _ => u =? url | _ => false end.

(** The storage and transport capability the hook consumes: every operation
    may answer with a fault and may change the surroundings. *)
Class StorageGateway (E : Type) : Type := {
  stat : string -> E -> (Thrown + FileInfo) * E;
  listDirectory : string -> E -> (Thrown + list string) * E;
  makeDirectory : string -> E -> (Thrown + unit) * E;
  delete : string -> E -> (Thrown + unit) * E;
  downloadResumable :
    string -> string -> E ->
    (list DownloadProgressData * (Thrown + option string)) * E;
  now : E -> N * E
}.

Section Semantics.

Context {E : Type} {gateway : StorageGateway E} {closure : Closure}.

(** [tasks] holds the promises of the [downloadVideo] calls that were made
    and not awaited: a suspended task is a [Vis] on an awaited operation,
    a settled one is a [Ret] or a [Throw]. *)
Record World : Type := mkWorld {
  hook : HookState;
  ext : E;
  trace : list Event;
  tasks : list (Prog (option string))
}.

Definition withHook (f : HookState -> HookState) (w : World) : World :=
  {| hook := f (hook w); ext := ext w; trace := trace w; tasks := tasks w |}.

Definition withExt (e : E) (w : World) : World :=
  {| hook := hook w; ext := e; trace := trace w; tasks := tasks w |}.

Definition record (ev : Event) (w : World) : World :=
  {| hook := hook w; ext := ext w; trace := trace w ++ [ev]; tasks := tasks w |}.

Definition addTask (p : Prog (option string)) (w : World) : World :=
  {| hook := hook w; ext := ext w; trace := trace w; tasks := tasks w ++ [p] |}.

Fixpoint replaceNth {T : Type} (i : nat) (x : T) (l : list T) : list T :=
  match l, i with
  | [], _ => []
  | _ :: rest, O => x :: rest
  | y :: rest, S j => y :: replaceNth j x rest
  end.

Definition setTask (i : nat) (p : Prog (option string)) (w : World) : World :=
  {| hook := hook w; ext := ext w; trace := trace w;
     tasks := replaceNth i p (tasks w) |}.

(** One operation, carried out. *)
Definition performWith (onSpawn : string -> World -> World)
    (op : Op) (w : World) : Resp op * World :=
  match op as o return Resp o * World with
  | SetVideoSource v =>
      (tt, withHook (fun h => {| videoSource := v; isLoading := isLoading h;
                                 error := error h; cacheProgress := cacheProgress h;
                                 isCached := isCached h |}) w)
  | SetIsLoading b =>
      (tt, withHook (fun h => {| videoSource := videoSource h; isLoading := b;
                                 error := error h; cacheProgress := cacheProgress h;
                                 isCached := isCached h |}) w)
  | SetError e =>
      (tt, withHook (fun h => {| videoSource := videoSource h; isLoading := isLoading h;
                                 error := e; cacheProgress := cacheProgress h;
                                 isCached := isCached h |}) w)
  | SetCacheProgress n =>
      (tt, withHook (fun h => {| videoSource := videoSource h; isLoading := isLoading h;
                                 error := error h; cacheProgress := n;
                                 isCached := isCached h |}) w)
  | SetIsCached b =>
      (tt, withHook (fun h => {| videoSource := videoSource h; isLoading := isLoading h;
                                 error := error h; cacheProgress := cacheProgress h;
                                 isCached := b |}) w)
  | DateNow =>
      let r := now (ext w) in (fst r, withExt (snd r) w)
  | ConsoleWarn label err => (tt, record (Warned label err) w)
  | ConsoleError label err => (tt, record (ErrorLogged label err) w)
  | GetInfoAsync p =>
      let r := stat p (ext w) in
      (fst r, record (Stat p (fst r)) (withExt (snd r) w))
  | ReadDirectoryAsync p =>
      let r := listDirectory p (ext w) in
      (fst r, record (Listed p (fst r)) (withExt (snd r) w))
  | MakeDirectoryAsync p =>
      let r := makeDirectory p (ext w) in
      (fst r, record (MadeDirectory p (fst r)) (withExt (snd r) w))
  | DeleteAsync p =>
      let r := delete p (ext w) in
      (fst r, record (Deleted p (fst r)) (withExt (snd r) w))
  | DownloadAsync url dest =>
      let r := downloadResumable url dest (ext w) in
      (fst r, record (Downloaded url dest (fst r)) (withExt (snd r) w))
  | Spawn url => (tt, onSpawn url w)
  end.

(** A task runs without interruption up to its next [await]. *)
Fixpoint runSyncWith {A : Type} (onSpawn : string -> World -> World)
    (p : Prog A) (w : World) : Prog A * World :=
  match p with
  | Vis op k =>
      if awaited op then (p, w)
      else
        let r := performWith onSpawn op w in
        runSyncWith onSpawn (k (fst r)) (snd r)
  | _ => (p, w)
  end.

(** [downloadVideo(url)] called and not awaited: its body runs up to the
    first [await], and the promise joins the pending tasks. *)
Definition call (url : string) (w : World) : World :=
  let r := runSyncWith (fun _ w' => w') (downloadVideo url) w in
  addTask (fst r) (snd r).

Definition perform (op : Op) (w : World) : Resp op * World :=
  performWith call op w.

Definition runSync {A : Type} (p : Prog A) (w : World) : Prog A * World :=
  runSyncWith call p w.

(** A task awaited to its end, nothing else running in between. *)
Fixpoint run {A : Type} (p : Prog A) (w : World) : Outcome A * World :=
  match p with
  | Ret a => (Resolved a, w)
  | Throw e => (Rejected e, w)
  | Vis op k => let r := perform op w in run (k (fst r)) (snd r)
  end.

(** A suspended task is resumed: the operation it awaits is carried out
    and the task runs on to its next [await]. *)
Definition resume {A : Type} (p : Prog A) (w : World) : Prog A * World :=
  match p with
  | Vis op k => let r := perform op w in runSync (k (fst r)) (snd r)
  | _ => (p, w)
  end.

Definition stepTask (i : nat) (w : World) : World :=
  match nth_error (tasks w) i with
  | Some p => let r := resume p w in setTask i (fst r) (snd r)
  | None => w
  end.

(** The pending tasks resumed in the given order, one step each time. *)
Definition schedule (order : list nat) (w : World) : World :=
  fold_left (fun w' i => stepTask i w') order w.

(** A promise that has not produced a result and whose download is in
    flight for [url]. *)
Definition inFlight (url : string) (p : Prog (option string)) : bool :=
  match p with
  | Vis (DownloadAsync u _) _ => u =? url
  | _ => false
  end.

(** How many transfers the transport was asked for. *)
Definition transfers (url : string) (w : World) : nat :=
  length (filter (isDownloadOf url) (trace w)).

End Semantics.

Arguments World E : clear implicits.
Arguments call : simpl never.

(** ** One implementation of the gateway: a cache directory on a disk *)

Record Entry : Type := mkEntry {
  entryName : string;
  entrySize : Z;
  entryIsDirectory : bool;
  entryTime : Q
}.

(** What the network does with one download: the progress it reports, the
    bytes it leaves at the destination (if any), and how the promise
    settles. *)
Record Transfer : Type := mkTransfer {
  reported : list DownloadProgressData;
  leaves : option Z;
  settles : Thrown + option string
}.

Record Disk : Type := mkDisk {
  root : string;                 (* the path of the cache directory *)
  rootExists : bool;
  entries : list Entry;          (* in the order the directory lists them *)
  clock : N;
  stuck : list string;           (* paths whose deletion faults *)
  network : string -> Transfer
}.

Definition lookup (file : string) (es : list Entry) : option Entry :=
  find (fun e => entryName e =? file) es.

Definition without (file : string) (es : list Entry) : list Entry :=
  filter (fun e => negb (entryName e =? file)) es.

Definition withEntries (es : list Entry) (d : Disk) : Disk :=
  {| root := root d; rootExists := rootExists d; entries := es;
     clock := clock d; stuck := stuck d; network := network d |}.

Definition entryInfo (filePath : string) (e : Entry) : FileInfo :=
  Present filePath (entrySize e) (entryIsDirectory e) (entryTime e).

Definition diskStat (filePath : string) (d : Disk) : FileInfo :=
  if filePath =? root d then
    if rootExists d then Present filePath 0 true 0 else Absent filePath
  else
    match stripPrefix (root d) filePath with
    | Some file =>
        match lookup file (entries d) with
        | Some e => entryInfo filePath e
        | None => Absent filePath
        end
    | None => Absent filePath
    end.

Definition diskList (dirPath : string) (d : Disk) : Thrown + list string :=
  if (dirPath =? root d) && rootExists d then inr (map entryName (entries d))
  else inl (ErrorObject "Directory could not be read").

Definition diskMakeDirectory (dirPath : string) (d : Disk) : Disk :=
  if dirPath =? root d then
    {| root := root d; rootExists := true; entries := entries d;
       clock := clock d; stuck := stuck d; network := network d |}
  else d.

Definition diskDelete (filePath : string) (d : Disk) : (Thrown + unit) * Disk :=
  if existsb (String.eqb filePath) (stuck d) then
    (inl (ErrorObject "File could not be deleted"), d)
  else if filePath =? root d then
    if rootExists d then
      (inr tt, {| root := root d; rootExists := false; entries := [];
                  clock := clock d; stuck := stuck d; network := network d |})
    else (inl (ErrorObject "File does not exist"), d)
  else
    match stripPrefix (root d) filePath with
    | Some file =>
        match lookup file (entries d) with
        | Some _ => (inr tt, withEntries (without file (entries d)) d)
        | None => (inl (ErrorObject "File does not exist"), d)
        end
    | None => (inl (ErrorObject "File does not exist"), d)
    end.

Definition diskDownload (url dest : string) (d : Disk)
    : (list DownloadProgressData * (Thrown + option string)) * Disk :=
  let transfer := network d url in
  let d' :=
    match leaves transfer, stripPrefix (root d) dest with
    | Some bytes, Some file =>
        withEntries
          (without file (entries d)
             ++ [ {| entryName := file; entrySize := bytes;
                     entryIsDirectory := false;
                     entryTime := inject_Z (Z.of_N (clock d)) |} ]) d
    | _, _ => d
    end in
  ((reported transfer, settles transfer), d').

Definition diskNow (d : Disk) : N * Disk :=
  (clock d,
   {| root := root d; rootExists := rootExists d; entries := entries d;
      clock := clock d + 1; stuck := stuck d; network := network d |}).

#[global] Instance DiskGateway : StorageGateway Disk := {
  stat filePath d := (inr (diskStat filePath d), d);
  listDirectory dirPath d := (diskList dirPath d, d);
  makeDirectory dirPath d := (inr tt, diskMakeDirectory dirPath d);
  delete := diskDelete;
  downloadResumable := diskDownload;
  now := diskNow
}.

(** The regular files of a directory and what they weigh, in MB. *)
Definition regularFiles (es : list Entry) : list Entry :=
  filter (fun e => negb (entryIsDirectory e)) es.

Definition bytesOf (es : list Entry) : Z :=
  fold_right (fun e sum => (entrySize e + sum)%Z) 0%Z es.

Definition directorySizeMB (es : list Entry) : Q :=
  toMB (bytesOf (regularFiles es)).

(** The directory once the files of the given names are gone. *)
Definition removeAll (files : list string) (es : list Entry) : list Entry :=
  filter (fun e => negb (existsb (String.eqb (entryName e)) files)) es.

(** A directory lists every name once, and never the empty name. *)
Definition wellFormed (d : Disk) : Prop :=
  NoDup (map entryName (entries d)) /\ ~ In "" (map entryName (entries d)).

(** ** What the theorems observe *)

Section Observations.

Context {E : Type}.

(** The transfers the transport was asked for, in order. *)
Definition downloads (w : World E) : list Event := filter isDownload (trace w).

(** [w'] follows [w] by steps that leave the hook's state and the pending
    tasks alone and ask the transport for nothing. *)
Definition Quiet (w w' : World E) : Prop :=
  hook w' = hook w /\ tasks w' = tasks w /\
  exists news, trace w' = trace w ++ news
               /\ forallb (fun ev => negb (isDownload ev)) news = true.

(** The operations that only talk to the storage, the clock and the
    console. *)
Definition storageOnly (op : Op) : Prop :=
  match op with
  | GetInfoAsync _ | ReadDirectoryAsync _ | MakeDirectoryAsync _
  | DeleteAsync _ | DateNow | ConsoleWarn _ _ | ConsoleError _ _ => True
  | _ => False
  end.

(** Every operation of a program is an allowed one. *)
Inductive Uses {A : Type} (allowed : Op -> Prop) : Prog A -> Prop :=
| UsesRet (a : A) : Uses allowed (Ret a)
| UsesThrow (e : Thrown) : Uses allowed (Throw e)
| UsesVis (op : Op) (k : Resp op -> Prog A) :
    allowed op -> (forall x, Uses allowed (k x)) -> Uses allowed (Vis op k).

(** The operations that neither ask the transport for a transfer nor start
    another task. *)
Definition plain (op : Op) : Prop :=
  match op with
  | DownloadAsync _ _ | Spawn _ => False
  | _ => True
  end.

(** [Budget n p]: along every path, [p] asks the transport for at most [n]
    transfers, and starts no task. *)
Inductive Budget {A : Type} : nat -> Prog A -> Prop :=
| BudgetRet (n : nat) (a : A) : Budget n (Ret a)
| BudgetThrow (n : nat) (e : Thrown) : Budget n (Throw e)
| BudgetPlain (n : nat) (op : Op) (k : Resp op -> Prog A) :
    plain op -> (forall x, Budget n (k x)) -> Budget n (Vis op k)
| BudgetTransfer (n : nat) (url dest : string)
    (k : Resp (DownloadAsync url dest) -> Prog A) :
    (forall x, Budget n (k x)) -> Budget (S n) (Vis (DownloadAsync url dest) k).

(** Two worlds that differ at most in the loading flag and in the pending
    tasks. *)
Definition Alike (v1 v2 : World E) : Prop :=
  ext v1 = ext v2 /\ trace v1 = trace v2
  /\ videoSource (hook v1) = videoSource (hook v2)
  /\ error (hook v1) = error (hook v2)
  /\ cacheProgress (hook v1) = cacheProgress (hook v2)
  /\ isCached (hook v1) = isCached (hook v2).

(** A deletion asked of the storage, granted or not. *)
Definition isDeletion (ev : Event) : bool :=
  match ev with
  | Deleted _ _ => true
  | _ => false
  end.

(** A deletion that the storage refused. *)
Definition isFailedDeletion (ev : Event) : bool :=
  match ev with
  | Deleted _ (inl _) => true
  | _ => false
  end.

(** What an answer of [getInfoAsync] means to [checkIfCached]:
    [fileInfo.exists], and [false] when the call throws. *)
Definition reportsFile (answer : Thrown + FileInfo) : bool :=
  match answer with
  | inr (Present _ _ _ _) => true
  | _ => false
  end.

End Observations.

Section Moments.

Context {E : Type} {gateway : StorageGateway E} {closure : Closure}.

(** The world in which the main effect asks whether the source is cached:
    it has just announced that it is loading. *)
Definition checkingCache (w : World E) : World E :=
  snd (run (setIsLoading true ;; setError None) w).

(** The world in which [downloadVideo] turns to the storage: it has just
    announced that it is loading, with no error and no progress. *)
Definition starting (w : World E) : World E :=
  snd (run (setIsLoading true ;; setError None ;; setCacheProgress (Finite 0)) w).

(** What [manageCacheSize] learns about an entry of the cache directory. *)
Definition namedInfo (e : Entry) : NamedInfo :=
  {| info := entryInfo (cacheDir ++ entryName e) e;
     name := entryName e;
     path := (cacheDir ++ entryName e)%string |}.

(** The files the loop of [evict] asks the storage to delete when no
    deletion is refused: the same recursion, without the effects. *)
Fixpoint evicted (sortedFiles : list NamedInfo) (currentSize : Q) : list NamedInfo :=
  match sortedFiles with
  | [] => []
  | file :: rest =>
      if Qle_bool currentSize (maxCacheSize mergedOptions * (8 # 10)) then []
      else file :: evicted rest (currentSize - toMB (sizeOf file))
  end.

(** Single-flight, as the specification asks for it: two requests for
    [url] made one after the other without awaiting, then resumed in the
    given order, cost at most one transfer of [url]. *)
Definition singleFlight (url : string) (order : list nat) (w : World E) : Prop :=
  (transfers url (schedule order (call url (call url w)))
   <= transfers url w + 1)%nat.

End Moments.

(** ** Claims of the specification, stated on a disk *)

Section Claims.

Context {closure : Closure}.

(** "A stuck file must not block the whole pass": the pass goes on until the
    target is met or only files that cannot be deleted are left. *)
Definition evictionContinuesPastFailure (w : World Disk) : Prop :=
  let d' := ext (snd (run manageCacheSize w)) in
  (directorySizeMB (entries d') <= (8 # 10) * maxCacheSize mergedOptions)%Q
  \/ forall e, In e (regularFiles (entries d')) ->
               In (cacheDir ++ entryName e)%string (stuck (ext w)).

(** The pass leaves exactly the files [kept], which weigh [sizeMB]. *)
Definition evictionLeaves (w : World Disk) (kept : list string) (sizeMB : Q) : Prop :=
  let d' := ext (snd (run manageCacheSize w)) in
  map entryName (entries d') = kept /\ (directorySizeMB (entries d') == sizeMB)%Q.


End Claims.

(** ** Scenarios *)

Definition MiB : Z := 1048576.

Definition remoteVideo : string := "https://cdn.example/a/video.mp4".

(** A hook on [remoteVideo] with the given ceiling, in MB. *)
Definition hookWith (ceiling : Q) (preload : bool) : Closure :=
  {| documentDirectory := "file:///data/";
     mergedOptions := {| enableCaching := true; cacheDirectory := "videos";
                         maxCacheSize := ceiling; enablePreload := preload |};
     source := {| source_uri := Some remoteVideo; source_useCaching := None |} |}.

(** The transport delivers the file. *)
Definition delivering (url : string) : Transfer :=
  {| reported := [ {| totalBytesWritten := 512; totalBytesExpectedToWrite := 1024 |};
                   {| totalBytesWritten := 1024; totalBytesExpectedToWrite := 1024 |} ];
     leaves := Some 1024%Z;
     settles := inr (Some "file:///data/videos/video.mp4") |}.

(** The transport writes half of the file and then throws. *)
Definition breaking (url : string) : Transfer :=
  {| reported := [ {| totalBytesWritten := 512; totalBytesExpectedToWrite := 1024 |} ];
     leaves := Some 512%Z;
     settles := inl (ErrorObject "Network request failed") |}.

Definition diskOf (es : list Entry) (undeletable : list string)
    (net : string -> Transfer) : Disk :=
  {| root := "file:///data/videos/"; rootExists := true; entries := es;
     clock := 1700000000000; stuck := undeletable; network := net |}.

Definition worldOn (d : Disk) : World Disk :=
  {| hook := initialHookState; ext := d; trace := []; tasks := [] |}.

Definition videoFile (file : string) (megabytes : Z) (modified : Q) : Entry :=
  {| entryName := file; entrySize := (megabytes * MiB)%Z;
     entryIsDirectory := false; entryTime := modified |}.

(** Five files of 30 MiB, modified one after the other. *)
Definition fiveFiles : list Entry :=
  [ videoFile "a.mp4" 30 1; videoFile "b.mp4" 30 2; videoFile "c.mp4" 30 3;
    videoFile "d.mp4" 30 4; videoFile "e.mp4" 30 5 ].

(** Three files of 30 MiB. *)
Definition threeFiles : list Entry :=
  [ videoFile "a.mp4" 30 1; videoFile "b.mp4" 30 2; videoFile "c.mp4" 30 3 ].

(** ** The example component

    [SimpleCachedVideo] of [Sample.tsx]: it hands its props to the hook,
    always with preload enabled, and reports the end of caching to
    [onCacheComplete]. *)

(** The hook as [SimpleCachedVideo] calls it. *)
Definition simpleCachedVideo (directory videoUrl : string) (cachingProp : bool)
    : Closure :=
  {| documentDirectory := directory;
     mergedOptions := {| enableCaching := cachingProp; cacheDirectory := "my-videos";
                         maxCacheSize := 500; enablePreload := true |};
     source := {| source_uri := Some videoUrl;
                  source_useCaching := Some cachingProp |} |}.

(** The effect "handle cache completion": the argument [onCacheComplete] is
    called with, if it is called ([handlerGiven] says whether the prop was
    passed). *)
Definition cacheCompleteCall (h : HookState) (handlerGiven : bool) : option string :=
  if isCached h && truthy (uri (videoSource h)) && handlerGiven
  then Some (uri (videoSource h))
  else None.

(** A storage that is out of order: every operation throws. *)
Definition brokenStorage : StorageGateway unit :=
  {| stat := fun _ u => (inl (ErrorObject "Storage unavailable"), u);
     listDirectory := fun _ u => (inl (ErrorObject "Storage unavailable"), u);
     makeDirectory := fun _ u => (inl (ErrorObject "Storage unavailable"), u);
     delete := fun _ u => (inl (ErrorObject "Storage unavailable"), u);
     downloadResumable :=
       fun _ _ u => (([], inl (ErrorObject "Storage unavailable")), u);
     now := fun u => (0%N, u) |}.

Definition brokenStorageWorld : World unit :=
  {| hook := initialHookState; ext := tt; trace := []; tasks := [] |}.

(** The transport ends without a result. *)
Definition silent (url : string) : Transfer :=
  {| reported := []; leaves := None; settles := inr None |}.

Definition silentNetworkWorld : World Disk := worldOn (diskOf [] [] silent).

(** The video is in the cache already. *)
Definition cachedVideoWorld : World Disk :=
  worldOn (diskOf [videoFile "video.mp4" 30 1] [] delivering).

(** The five files beside a subdirectory. *)
Definition withSubdirectory : list Entry :=
  {| entryName := "thumbs"; entrySize := 4096; entryIsDirectory := true;
     entryTime := 0 |} :: fiveFiles.

Definition subdirectoryWorld : World Disk :=
  worldOn (diskOf withSubdirectory [] delivering).

(** The hooks and worlds of the scenarios. *)
Definition hook100 : Closure := hookWith 100 false.
Definition hook50 : Closure := hookWith 50 false.
Definition hook500 : Closure := hookWith 500 false.
Definition preloadingHook : Closure := hookWith 500 true.

Definition fiveFilesWorld : World Disk := worldOn (diskOf fiveFiles [] delivering).

Definition stuckFileWorld : World Disk :=
  worldOn (diskOf threeFiles ["file:///data/videos/a.mp4"] delivering).

Definition brokenNetworkWorld : World Disk := worldOn (diskOf [] [] breaking).

Definition emptyCacheWorld : World Disk := worldOn (diskOf [] [] delivering).

(** Both requests are resumed in turn, four times each. *)
Definition inTurn : list nat := [0; 1; 0; 1; 0; 1; 0; 1]%nat.

(** * Properties *)

(** ** Key resolution *)

Lemma includes_firstOf_split (c sep : ascii) (s : string) :
  includes c (firstOf (split sep s)) = true -> includes c s = true.
Proof.
  induction s as [|a s IH]; simpl; [easy|].
  destruct (Ascii.eqb a sep); simpl; [discriminate|].
  unfold firstOf in *.
  destruct (split sep s) as [|seg segs]; simpl in *.
  - rewrite orb_false_r. intros ->. reflexivity.
  - intros H. apply orb_true_iff in H as [H|H].
    + now rewrite H.
    + rewrite (IH H). apply orb_true_r.
Qed.

(** What [getCacheFilename] returns, case by case: the test for an extension
    looks at the final segment with its query string still attached. *)
Lemma getCacheFilename_cases (timestamp : N) (url : string) :
  getCacheFilename timestamp url =
    if includes "." (lastOf (split "/" url)) then strippedSegment url
    else ("video_" ++ ofNumber timestamp ++ ".mp4")%string.
Proof.
  unfold getCacheFilename, strippedSegment.
  destruct (includes "." (lastOf (split "/" url))); simpl; [|reflexivity].
  set (filename := lastOf (split "/" url)).
  destruct (includes "?" filename) eqn:Hq; [reflexivity|].
  clearbody filename. unfold firstOf.
  induction filename as [|a s IH]; simpl in *; [reflexivity|].
  apply orb_false_iff in Hq as [Ha Hs]. rewrite Ha.
  specialize (IH Hs). destruct (split "?" s) as [|seg segs]; simpl in *;
    congruence.
Qed.

(** C5. An identifier whose final segment has its only '.' inside the query
    string: the stripped segment has no extension separator, and
    [getCacheFilename] still returns that stripped segment, at every time,
    where a synthetic time-derived name was due. *)
Theorem getCacheFilename_dot_in_query_only :
  forall timestamp : N,
    let url := "https://cdn.example/watch?v=1.2" in
    strippedSegment url = "watch"
    /\ includes "." (strippedSegment url) = false
    /\ getCacheFilename timestamp url = "watch"
    /\ getCacheFilename timestamp url
       <> ("video_" ++ ofNumber timestamp ++ ".mp4")%string.
Proof.
  intros timestamp url. repeat split; try reflexivity.
  rewrite getCacheFilename_cases. simpl. discriminate.
Qed.

(** C6. An identifier whose final segment carries an extension separator
    resolves to the same key whatever the clock says at the two calls. *)
Theorem getCacheFilename_idempotent :
  forall (url : string) (firstCall secondCall : N),
    includes "." (lastOf (split "/" url)) = true ->
    getCacheFilename firstCall url = getCacheFilename secondCall url.
Proof.
  intros url t1 t2 Hext.
  rewrite !getCacheFilename_cases, Hext. reflexivity.
Qed.

Lemma getCacheFilename_idempotent_witness :
  includes "." (lastOf (split "/" "https://cdn.example/a/video.mp4?sig=9")) = true
  /\ getCacheFilename 1700000000000 "https://cdn.example/a/video.mp4?sig=9"
     = getCacheFilename 1700000000999 "https://cdn.example/a/video.mp4?sig=9".
Proof.
  split; [reflexivity|].
  apply (getCacheFilename_idempotent "https://cdn.example/a/video.mp4?sig=9").
  reflexivity.
Defined.

(** The extension may equally be read off the stripped segment. *)
Lemma extension_of_stripped_segment (url : string) :
  includes "." (strippedSegment url) = true ->
  includes "." (lastOf (split "/" url)) = true.
Proof. apply includes_firstOf_split. Qed.

(** ** Progress reporting *)



(** C8. The transport reports an expected size of -1 when the server sent no
    Content-Length; the callback then publishes a value that was not clamped:
    with 50 bytes written it publishes -5000. *)
Theorem progressPercent_not_clamped :
  progressPercent {| totalBytesWritten := 50; totalBytesExpectedToWrite := -1 |}
  = Finite (-5000)
  /\ ~ (0 <= -5000 <= 100)%Z.
Proof. split; [reflexivity | lia]. Qed.

(** ** Running programs: equations of [run] *)

Section RunLaws.

Context {E : Type} {gateway : StorageGateway E} {closure : Closure}.

Local Abbreviation World := (World E).

Lemma run_bind {A B : Type} (p : Prog A) (f : A -> Prog B) (w : World) :
  run (bind p f) w =
    match run p w with
    | (Resolved a, w') => run (f a) w'
    | (Rejected e, w') => (Rejected e, w')
    end.
Proof.
  revert w. induction p as [a|e|op k IH]; intros w; simpl; auto.
Qed.

Lemma run_try_catch {A : Type} (p : Prog A) (handler : Thrown -> Prog A)
    (w : World) :
  run (try_catch p handler) w =
    match run p w with
    | (Resolved a, w') => (Resolved a, w')
    | (Rejected e, w') => run (handler e) w'
    end.
Proof.
  revert w. induction p as [a|e|op k IH]; intros w; simpl; auto.
Qed.

Lemma run_finally {A : Type} (p : Prog A) (cleanup : Prog unit) (w : World) :
  run (finally p cleanup) w =
    match run p w with
    | (Resolved a, w') => run (cleanup ;; Ret a) w'
    | (Rejected e, w') => run (cleanup ;; Throw e) w'
    end.
Proof.
  revert w. induction p as [a|e|op k IH]; intros w; simpl; auto.
Qed.


Lemma Quiet_refl (w : World) : Quiet w w.
Proof.
  repeat split. exists []. now rewrite app_nil_r.
Qed.

Lemma Quiet_trans (w1 w2 w3 : World) : Quiet w1 w2 -> Quiet w2 w3 -> Quiet w1 w3.
Proof.
  intros (Hh & Ht & n1 & Hn1 & Hf1) (Hh' & Ht' & n2 & Hn2 & Hf2).
  repeat split; try congruence.
  exists (n1 ++ n2). rewrite Hn2, Hn1, app_assoc, forallb_app, Hf1, Hf2. auto.
Qed.

Lemma Quiet_downloads (w w' : World) : Quiet w w' -> downloads w' = downloads w.
Proof.
  intros (_ & _ & news & Hn & Hf). unfold downloads.
  rewrite Hn, filter_app.
  assert (Hnil : filter isDownload news = []).
  { clear Hn. induction news as [|ev news IH]; simpl in *; [reflexivity|].
    apply andb_true_iff in Hf as [Hev Hrest].
    destruct (isDownload ev); [discriminate|]. auto. }
  now rewrite Hnil, app_nil_r.
Qed.


Lemma Uses_bind {A B : Type} (allowed : Op -> Prop) (p : Prog A) (f : A -> Prog B) :
  Uses allowed p -> (forall a, Uses allowed (f a)) -> Uses allowed (bind p f).
Proof.
  intros Hp Hf. induction Hp; simpl; auto using @Uses.
Qed.

Lemma Uses_try_catch {A : Type} (allowed : Op -> Prop) (p : Prog A)
    (handler : Thrown -> Prog A) :
  Uses allowed p -> (forall e, Uses allowed (handler e)) ->
  Uses allowed (try_catch p handler).
Proof.
  intros Hp Hh. induction Hp; simpl; auto using @Uses.
Qed.

Lemma Uses_finally {A : Type} (allowed : Op -> Prop) (p : Prog A)
    (cleanup : Prog unit) :
  Uses allowed p -> Uses allowed cleanup -> Uses allowed (finally p cleanup).
Proof.
  intros Hp Hc.
  induction Hp; simpl; try (constructor; assumption);
    apply Uses_bind; try assumption; intros; constructor.
Qed.

Lemma Uses_orThrow {A : Type} (allowed : Op -> Prop) (r : Thrown + A) :
  Uses allowed (orThrow r).
Proof. destruct r; constructor. Qed.

Lemma Uses_forEach {T : Type} (allowed : Op -> Prop) (body : T -> Prog unit)
    (xs : list T) :
  (forall x, Uses allowed (body x)) -> Uses allowed (forEach body xs).
Proof.
  intros Hb. induction xs; simpl; [constructor|].
  apply Uses_bind; auto.
Qed.

Lemma Uses_mapAll {T U : Type} (allowed : Op -> Prop) (body : T -> Prog U)
    (xs : list T) :
  (forall x, Uses allowed (body x)) -> Uses allowed (mapAll body xs).
Proof.
  intros Hb. induction xs as [|x xs IH]; simpl; [constructor|].
  apply Uses_bind; [apply Hb|]. intros y.
  apply Uses_bind; [exact IH|]. intros ys. constructor.
Qed.

Lemma perform_storageOnly (op : Op) (w : World) :
  storageOnly op -> Quiet w (snd (perform op w)).
Proof.
  destruct op; simpl; try contradiction; intros _;
    unfold Quiet; simpl; repeat split;
    solve [ exists []; now rewrite app_nil_r
          | eexists; split; [reflexivity|reflexivity] ].
Qed.

Lemma run_storageOnly {A : Type} (p : Prog A) (w : World) :
  Uses storageOnly p -> Quiet w (snd (run p w)).
Proof.
  intros Hp. revert w.
  induction Hp as [a|e|op k Hop Hk IH]; intros w; simpl;
    try apply Quiet_refl.
  eapply Quiet_trans; [apply perform_storageOnly; exact Hop|apply IH].
Qed.


Lemma Uses_getCacheFilePath (url : string) : Uses storageOnly (getCacheFilePath url).
Proof. repeat constructor. Qed.

Lemma Uses_checkIfCached (url : string) : Uses storageOnly (checkIfCached url).
Proof.
  apply Uses_try_catch.
  - constructor; [exact I|]. intros t. simpl.
    constructor; [exact I|]. intros [e|i]; simpl; constructor.
  - intros e. repeat constructor.
Qed.

Lemma Uses_ensureCacheDirectory : Uses storageOnly ensureCacheDirectory.
Proof.
  apply Uses_try_catch.
  - constructor; [exact I|]. intros [e|[u|u s d t]]; simpl; try constructor.
    + exact I.
    + intros r. apply Uses_orThrow.
  - intros e. repeat constructor.
Qed.

Lemma Uses_evict (files : list NamedInfo) (currentSize : Q) :
  Uses storageOnly (evict files currentSize).
Proof.
  revert currentSize. induction files as [|f files IH]; intros cur; simpl.
  - constructor.
  - destruct (Qle_bool _ _); [constructor|].
    constructor; [exact I|]. intros [e|[]]; simpl; [constructor|apply IH].
Qed.

Lemma Uses_statFile (file : string) : Uses storageOnly (statFile file).
Proof.
  constructor; [exact I|]. intros [e|i]; simpl; constructor.
Qed.

Lemma Uses_manageCacheSize : Uses storageOnly manageCacheSize.
Proof.
  apply Uses_try_catch.
  - constructor; [exact I|]. intros [e|files]; simpl; [constructor|].
    apply Uses_bind; [apply Uses_mapAll, Uses_statFile|]. intros infos.
    destruct (negb _); [apply Uses_evict|constructor].
  - intros e. repeat constructor.
Qed.




(** The progress callbacks only move [cacheProgress]. *)
Lemma run_progress_callbacks (events : list DownloadProgressData) (w : World) :
  exists w',
    run (forEach (fun downloadProgress =>
                    setCacheProgress (progressPercent downloadProgress)) events) w
    = (Resolved tt, w')
    /\ videoSource (hook w') = videoSource (hook w)
    /\ isLoading (hook w') = isLoading (hook w)
    /\ error (hook w') = error (hook w)
    /\ isCached (hook w') = isCached (hook w)
    /\ trace w' = trace w /\ tasks w' = tasks w /\ ext w' = ext w.
Proof.
  revert w. induction events as [|ev events IH]; intros w; simpl.
  - exists w. repeat split.
  - match goal with |- context [run _ ?w1] => destruct (IH w1) as (w' & Hr & H) end.
    exists w'. split; [exact Hr|]. simpl in H. exact H.
Qed.

Lemma downloads_snoc (w : World) (ev : Event) :
  downloads (record ev w) = downloads w ++ (if isDownload ev then [ev] else []).
Proof.
  unfold downloads; simpl. rewrite filter_app. simpl.
  destruct (isDownload ev); reflexivity.
Qed.

(** Every way a call of [downloadVideo] can go. *)
Lemma downloadVideo_run (url : string) (w : World) :
  exists result w',
    run (downloadVideo url) w = (Resolved result, w')
    /\ isLoading (hook w') = false
    /\ videoSource (hook w') = videoSource (hook w)
    /\ tasks w' = tasks w
    /\ ((result <> None /\ error (hook w') = None /\ isCached (hook w') = true
         /\ ((exists t, result = Some (cacheDir ++ getCacheFilename t url)%string
                        /\ downloads w' = downloads w)
             \/ (exists dest events resultUri,
                    result = Some resultUri
                    /\ downloads w'
                       = downloads w
                           ++ [Downloaded url dest (events, inr (Some resultUri))])))
        \/ (result = None /\ isCached (hook w') = isCached (hook w)
            /\ ((exists e, error (hook w') = Some (messageOr "Download failed" e)
                           /\ downloads w' = downloads w)
                \/ (exists dest events e,
                       error (hook w') = Some (messageOr "Download failed" e)
                       /\ downloads w'
                          = downloads w ++ [Downloaded url dest (events, inl e)])
                \/ (exists dest events r,
                       error (hook w') = Some "Download failed"
                       /\ downloads w'
                          = downloads w ++ [Downloaded url dest (events, inr r)]
                       /\ match r with
                          | Some resultUri => truthy resultUri = false
                          | None => True
                          end)))).
Proof.
  unfold downloadVideo, downloads. cbn.
  rewrite run_finally, run_try_catch, run_bind.
  match goal with |- context [run ensureCacheDirectory ?w1] =>
    pose proof (run_storageOnly ensureCacheDirectory w1 Uses_ensureCacheDirectory) as Q1;
    destruct (run ensureCacheDirectory w1) as [[[]|e1] w2]
  end; simpl in Q1; pose proof (Quiet_downloads _ _ Q1) as D1;
    destruct Q1 as (H1 & T1 & _); unfold downloads in D1; simpl in D1, H1, T1.
  2: { cbn. eexists _, _. split; [reflexivity|].
       cbn. rewrite H1, T1, filter_app, D1. cbn. repeat split.
       right. repeat split. left. exists e1. split; [reflexivity|].
       now rewrite app_nil_r. }
  rewrite run_bind.
  match goal with |- context [run manageCacheSize ?w1] =>
    pose proof (run_storageOnly manageCacheSize w1 Uses_manageCacheSize) as Q2;
    destruct (run manageCacheSize w1) as [[[]|e2] w3]
  end; simpl in Q2; pose proof (Quiet_downloads _ _ Q2) as D2;
    destruct Q2 as (H2 & T2 & _); unfold downloads in D2; simpl in D2, H2, T2.
  2: { cbn. eexists _, _. split; [reflexivity|].
       cbn. rewrite H2, H1, T2, T1, filter_app, D2, D1. cbn. repeat split.
       right. repeat split. left. exists e2. split; [reflexivity|].
       now rewrite app_nil_r. }
  cbn.
  rewrite run_bind.
  match goal with |- context [run (checkIfCached url) ?w1] =>
    pose proof (run_storageOnly (checkIfCached url) w1 (Uses_checkIfCached url)) as Q3;
    destruct (run (checkIfCached url) w1) as [[cached|e3] w4]
  end; simpl in Q3; pose proof (Quiet_downloads _ _ Q3) as D3;
    destruct Q3 as (H3 & T3 & _); unfold downloads in D3; simpl in D3, H3, T3.
  2: { cbn. eexists _, _. split; [reflexivity|].
       cbn. rewrite H3, H2, H1, T3, T2, T1, filter_app, D3, D2, D1. cbn. repeat split.
       right. repeat split. left. exists e3. split; [reflexivity|].
       now rewrite app_nil_r. }
  destruct cached.
  { cbn. eexists _, _. split; [reflexivity|].
    cbn. rewrite H3, H2, H1, T3, T2, T1, D3, D2, D1. cbn. repeat split.
    left. repeat split; [discriminate|]. left. eexists. split; reflexivity. }
  unfold downloadAsync. cbn -[forEach].
  rewrite !run_bind.
  match goal with |- context [run (forEach _ ?evs) ?w1] =>
    destruct (run_progress_callbacks evs w1) as (w5 & R5 & V5 & L5 & E5 & C5 & Tr5 & T5 & X5)
  end.
  rewrite R5. clear R5. simpl in V5, L5, E5, C5, Tr5, T5, X5.
  match goal with |- context [downloadResumable url ?dest ?x] =>
    remember (downloadResumable url dest x) as answer eqn:Ha; clear Ha;
    remember dest as filePath eqn:Hp; clear Hp
  end.
  destruct answer as [[events [e|[resultUri|]]] x']; simpl in *.
  - eexists _, _. split; [reflexivity|].
    cbn. rewrite ?V5, ?L5, ?E5, ?C5, ?Tr5, ?T5, ?H3, ?H2, ?H1, ?T3, ?T2, ?T1.
    rewrite ?filter_app, ?D3, ?D2, ?D1. cbn. rewrite ?app_nil_r. repeat split.
    right. repeat split. right. left. exists filePath, events, e. split; reflexivity.
  - destruct (truthy resultUri) eqn:Htruthy.
    + eexists _, _. split; [reflexivity|].
      cbn. rewrite ?V5, ?L5, ?E5, ?C5, ?Tr5, ?T5, ?H3, ?H2, ?H1, ?T3, ?T2, ?T1.
      rewrite ?filter_app, ?D3, ?D2, ?D1. cbn. rewrite ?app_nil_r. repeat split.
      left. repeat split; [discriminate|]. right.
      exists filePath, events, resultUri. split; reflexivity.
    + eexists _, _. split; [reflexivity|].
      cbn. rewrite ?V5, ?L5, ?E5, ?C5, ?Tr5, ?T5, ?H3, ?H2, ?H1, ?T3, ?T2, ?T1.
      rewrite ?filter_app, ?D3, ?D2, ?D1. cbn. rewrite ?app_nil_r. repeat split.
      right. repeat split. right. right.
      exists filePath, events, (Some resultUri). repeat split. exact Htruthy.
  - eexists _, _. split; [reflexivity|].
    cbn. rewrite ?V5, ?L5, ?E5, ?C5, ?Tr5, ?T5, ?H3, ?H2, ?H1, ?T3, ?T2, ?T1.
    rewrite ?filter_app, ?D3, ?D2, ?D1. cbn. rewrite ?app_nil_r. repeat split.
    right. repeat split. right. right.
    exists filePath, events, None. repeat split.
Qed.


Lemma snoc_not_same {T : Type} (l : list T) (x : T) : l <> l ++ [x].
Proof.
  intros H. apply (f_equal (@length T)) in H.
  rewrite length_app in H. simpl in H. lia.
Qed.



Lemma call_frame (url : string) (w : World) :
  videoSource (hook (call url w)) = videoSource (hook w)
  /\ isCached (hook (call url w)) = isCached (hook w)
  /\ trace (call url w) = trace w
  /\ ext (call url w) = ext w.
Proof. repeat split. Qed.

(** C7. A non-null identifier, caching effectively enabled, and an existence
    check that answers false: when the main effect has run, the served path
    is the identifier itself, and the transport was not asked for anything
    in the meantime (a preload, if enabled, is only pending). *)
Theorem handleVideoSource_serves_remote (identifier : string) (w : World) :
  source_uri source = Some identifier ->
  enableCaching mergedOptions = true ->
  cachingRefused = false ->
  fst (run (checkIfCached identifier) (checkingCache w)) = Resolved false ->
  let w' := snd (run handleVideoSource w) in
  fst (run handleVideoSource w) = Resolved tt
  /\ uri (videoSource (hook w')) = identifier
  /\ downloads w' = downloads w.
Proof.
  intros Hsrc Hen Href Hcheck. unfold handleVideoSource.
  rewrite Hsrc, Hen, Href. simpl negb. simpl orb.
  destruct (truthy identifier) eqn:Htruthy; simpl negb; cbv iota.
  2: { unfold truthy in Htruthy. apply negb_false_iff, String.eqb_eq in Htruthy.
       subst identifier. cbn. repeat split. }
  cbn. rewrite run_finally, run_try_catch, run_bind.
  unfold checkingCache in Hcheck. cbn in Hcheck.
  match goal with |- context [run (checkIfCached identifier) ?w1] =>
    pose proof (run_storageOnly (checkIfCached identifier) w1
                  (Uses_checkIfCached identifier)) as Q;
    destruct (run (checkIfCached identifier) w1) as [[cached|e] w2]
  end; simpl in Hcheck; [|discriminate].
  injection Hcheck as ->.
  pose proof (Quiet_downloads _ _ Q) as D. destruct Q as (H & _).
  unfold downloads in *. simpl in D, H.
  destruct (enablePreload mergedOptions); cbn.
  - match goal with |- context [call identifier ?w3] =>
      destruct (call_frame identifier w3) as (Hv & _ & Ht & _)
    end.
    rewrite Hv, Ht. simpl. repeat split. exact D.
  - repeat split. exact D.
Qed.

(** *** Eviction and deletion faults *)

Lemma run_appends {A : Type} (good : Event -> bool) (allowed : Op -> Prop)
    (p : Prog A) :
  (forall op (w : World), allowed op ->
     exists news, trace (snd (perform op w)) = trace w ++ news
                  /\ forallb good news = true) ->
  Uses allowed p ->
  forall w : World,
    exists news, trace (snd (run p w)) = trace w ++ news
                 /\ forallb good news = true.
Proof.
  intros Hop Hp. induction Hp as [a|e|op k Hallowed Hk IH]; intros w; simpl.
  - exists []. now rewrite app_nil_r.
  - exists []. now rewrite app_nil_r.
  - destruct (Hop op w Hallowed) as (n1 & Hn1 & Hg1).
    destruct (IH (fst (perform op w)) (snd (perform op w))) as (n2 & Hn2 & Hg2).
    exists (n1 ++ n2). rewrite Hn2, Hn1, app_assoc, forallb_app, Hg1, Hg2. auto.
Qed.

Lemma mapAll_statFile_trace (files : list string) (w : World) :
  exists news,
    trace (snd (run (mapAll statFile files) w)) = trace w ++ news
    /\ forallb (fun ev => negb (isFailedDeletion ev)) news = true.
Proof.
  apply run_appends
    with (allowed := fun op => match op with GetInfoAsync _ => True | _ => False end).
  - intros op w' Hop. destruct op; try contradiction. simpl.
    eexists. split; reflexivity.
  - apply Uses_mapAll. intros file.
    constructor; [exact I|]. intros [e|i]; simpl; constructor.
Qed.

(** The deletion loop deletes until it is done or until one deletion is
    refused; it asks for nothing after a refusal. *)
Lemma evict_trace (files : list NamedInfo) (currentSize : Q) (w : World) :
  exists done,
    forallb (fun ev => negb (isFailedDeletion ev)) done = true
    /\ ((fst (run (evict files currentSize) w) = Resolved tt
         /\ trace (snd (run (evict files currentSize) w)) = trace w ++ done)
        \/ (exists filePath e,
               fst (run (evict files currentSize) w) = Rejected e
               /\ trace (snd (run (evict files currentSize) w))
                  = trace w ++ done ++ [Deleted filePath (inl e)])).
Proof.
  revert currentSize w.
  induction files as [|file files IH]; intros cur w; simpl.
  - exists []. split; [reflexivity|]. left. now rewrite app_nil_r.
  - destruct (Qle_bool _ _).
    + exists []. split; [reflexivity|]. left. simpl. now rewrite app_nil_r.
    + simpl. destruct (fst (delete (path file) (ext w))) as [e|[]] eqn:Hdel; simpl.
      * exists []. split; [reflexivity|]. right. exists (path file), e. auto.
      * match goal with |- context [run (evict files ?c) ?w1] =>
          destruct (IH c w1) as (done & Hgood & Hcases)
        end.
        exists (Deleted (path file) (inr tt) :: done). split; [exact Hgood|].
        simpl in Hcases.
        destruct Hcases as [(Hout & Htr) | (filePath & e & Hout & Htr)].
        -- left. split; [exact Hout|]. rewrite Htr, <- app_assoc. reflexivity.
        -- right. exists filePath, e. split; [exact Hout|].
           rewrite Htr, <- app_assoc. reflexivity.
Qed.

Lemma no_failed_deletion (news before after : list Event) (ev : Event) :
  forallb (fun ev => negb (isFailedDeletion ev)) news = true ->
  isFailedDeletion ev = true ->
  news <> before ++ ev :: after.
Proof.
  intros Hgood Hev ->. rewrite forallb_app in Hgood. simpl in Hgood.
  rewrite Hev in Hgood. simpl in Hgood. now rewrite andb_false_r in Hgood.
Qed.

Lemma failed_deletion_position (done rest before after : list Event) (x y : Event) :
  forallb (fun ev => negb (isFailedDeletion ev)) done = true ->
  forallb (fun ev => negb (isFailedDeletion ev)) rest = true ->
  isFailedDeletion y = true ->
  done ++ x :: rest = before ++ y :: after ->
  x = y /\ rest = after.
Proof.
  revert before. induction done as [|d done IH]; intros before Hdone Hrest Hy Heq.
  - destruct before as [|b before]; simpl in Heq.
    + inversion Heq. auto.
    + inversion Heq; subst. exfalso.
      exact (no_failed_deletion _ _ _ _ Hrest Hy eq_refl).
  - simpl in Hdone. apply andb_true_iff in Hdone as [Hd Hdone].
    destruct before as [|b before]; simpl in Heq.
    + inversion Heq; subst. rewrite Hy in Hd. discriminate.
    + inversion Heq; subst. eapply IH; eauto.
Qed.

(** C2 (amended). An eviction pass never rejects; and when one deletion is
    refused the pass ends there: the only thing that follows the refused
    deletion is the warning logged by the handler of the whole pass. *)
Theorem manageCacheSize_stops_at_failed_deletion (w : World) :
  fst (run manageCacheSize w) = Resolved tt
  /\ exists news,
       trace (snd (run manageCacheSize w)) = trace w ++ news
       /\ forall before filePath e after,
            news = before ++ Deleted filePath (inl e) :: after ->
            after = [Warned "Error managing cache size:" e].
Proof.
  unfold manageCacheSize. rewrite run_try_catch. cbn.
  destruct (fst (listDirectory cacheDir (ext w))) as [e|files] eqn:Hlist; cbn.
  { split; [reflexivity|]. eexists. split; [rewrite <- app_assoc; reflexivity|].
    intros before filePath e' after Heq. exfalso.
    eapply no_failed_deletion; [| |exact Heq]; reflexivity. }
  rewrite run_bind.
  match goal with |- context [run (mapAll statFile files) ?w1] =>
    destruct (mapAll_statFile_trace files w1) as (stats & Hstats & Hgood);
    destruct (run (mapAll statFile files) w1) as [[infos|e] w2]
  end; simpl in Hstats.
  2: { cbn. split; [reflexivity|]. rewrite Hstats.
       exists (Listed cacheDir (inr files) :: stats ++ [Warned "Error managing cache size:" e]).
       split; [now rewrite <- !app_assoc|].
       intros before filePath e' after Heq. exfalso.
       eapply no_failed_deletion; [| |exact Heq]; [|reflexivity].
       simpl. rewrite forallb_app, Hgood. reflexivity. }
  match goal with |- context [if ?c then _ else _] => destruct c end.
  2: { cbn. split; [reflexivity|]. rewrite Hstats.
       exists (Listed cacheDir (inr files) :: stats).
       split; [now rewrite <- !app_assoc|].
       intros before filePath e' after Heq. exfalso.
       eapply no_failed_deletion; [| |exact Heq]; [|reflexivity].
       simpl. exact Hgood. }
  match goal with |- context [run (evict ?fs ?c) w2] =>
    destruct (evict_trace fs c w2) as (done & Hdone & Hcases);
    destruct (run (evict fs c) w2) as [out w3]
  end; simpl in Hcases.
  destruct Hcases as [(-> & Htr) | (filePath & e & -> & Htr)]; cbn.
  - split; [reflexivity|]. rewrite Htr, Hstats.
    exists (Listed cacheDir (inr files) :: stats ++ done).
    split; [now rewrite <- !app_assoc|].
    intros before filePath e' after Heq. exfalso.
    eapply no_failed_deletion; [| |exact Heq]; [|reflexivity].
    simpl. rewrite forallb_app, Hgood, Hdone. reflexivity.
  - split; [reflexivity|]. rewrite Htr, Hstats.
    exists ((Listed cacheDir (inr files) :: stats ++ done)
              ++ Deleted filePath (inl e) :: [Warned "Error managing cache size:" e]).
    split; [simpl; now rewrite <- !app_assoc|].
    intros before filePath' e' after Heq.
    apply failed_deletion_position in Heq as [Hx Hrest]; try reflexivity.
    + inversion Hx; subst. reflexivity.
    + simpl. rewrite forallb_app, Hgood, Hdone. reflexivity.
Qed.

(** *** Concurrent requests *)

Lemma Budget_mono {A : Type} (n m : nat) (p : Prog A) :
  Budget n p -> (n <= m)%nat -> Budget m p.
Proof.
  intros Hp. revert m.
  induction Hp as [n a|n e|n op k Hop Hk IH|n url dest k Hk IH]; intros m Hle.
  - constructor.
  - constructor.
  - constructor; auto.
  - destruct m as [|m]; [lia|]. apply BudgetTransfer. intros x. apply IH. lia.
Qed.

Lemma Budget_of_storageOnly {A : Type} (p : Prog A) :
  Uses storageOnly p -> Budget 0 p.
Proof.
  intros Hp. induction Hp as [a|e|op k Hop Hk IH]; try constructor; auto.
  destruct op; simpl in *; tauto.
Qed.

Lemma Budget_bind {A B : Type} (n : nat) (p : Prog A) (f : A -> Prog B) :
  Budget 0 p -> (forall a, Budget n (f a)) -> Budget n (bind p f).
Proof.
  intros Hp Hf. remember 0%nat as z eqn:Hz.
  induction Hp; simpl; try discriminate; auto.
  - constructor.
  - constructor; auto.
Qed.

Lemma Budget_try_catch {A : Type} (n : nat) (p : Prog A) (handler : Thrown -> Prog A) :
  Budget n p -> (forall e, Budget 0 (handler e)) -> Budget n (try_catch p handler).
Proof.
  intros Hp Hh. induction Hp; simpl.
  - constructor.
  - apply Budget_mono with 0%nat; [apply Hh|lia].
  - constructor; auto.
  - apply BudgetTransfer; auto.
Qed.

Lemma Budget_finally {A : Type} (n : nat) (p : Prog A) (cleanup : Prog unit) :
  Budget 0 cleanup -> Budget n p -> Budget n (finally p cleanup).
Proof.
  intros Hc Hp. induction Hp; simpl.
  - apply Budget_bind; [exact Hc|]. intros _. constructor.
  - apply Budget_bind; [exact Hc|]. intros _. constructor.
  - constructor; auto.
  - apply BudgetTransfer; auto.
Qed.

Lemma Budget_forEach {T : Type} (body : T -> Prog unit) (xs : list T) :
  (forall x, Budget 0 (body x)) -> Budget 0 (forEach body xs).
Proof.
  intros Hb. induction xs; simpl; [constructor|].
  apply Budget_bind; auto.
Qed.

(** One call of [downloadVideo] asks for at most one transfer. *)
Lemma Budget_downloadVideo (url : string) : Budget 1 (downloadVideo url).
Proof.
  unfold downloadVideo.
  apply Budget_finally; [repeat constructor|].
  apply Budget_try_catch; [|intros e; repeat constructor].
  repeat (apply Budget_bind; [repeat constructor|]; intros _).
  apply Budget_bind; [apply Budget_of_storageOnly, Uses_ensureCacheDirectory|]; intros _.
  apply Budget_bind; [apply Budget_of_storageOnly, Uses_manageCacheSize|]; intros _.
  apply Budget_bind; [apply Budget_of_storageOnly, Uses_getCacheFilePath|]; intros filePath.
  apply Budget_bind; [apply Budget_of_storageOnly, Uses_checkIfCached|]; intros [|].
  - repeat constructor.
  - unfold downloadAsync. simpl. apply BudgetTransfer. intros [events settled]. simpl.
    apply Budget_bind.
    + apply Budget_bind; [apply Budget_forEach; intros; repeat constructor|].
      intros _. destruct settled; constructor.
    + intros [resultUri|]; [destruct (truthy resultUri)|]; repeat constructor.
Qed.

Lemma perform_plain (onSpawn : string -> World -> World) (url : string)
    (op : Op) (w : World) :
  plain op ->
  transfers url (snd (performWith onSpawn op w)) = transfers url w
  /\ tasks (snd (performWith onSpawn op w)) = tasks w.
Proof.
  unfold transfers.
  destruct op; simpl; try contradiction; intros _; split; try reflexivity;
    rewrite filter_app; simpl; now rewrite app_nil_r.
Qed.

Lemma perform_transfer (onSpawn : string -> World -> World) (url u dest : string)
    (w : World) :
  (transfers url (snd (performWith onSpawn (DownloadAsync u dest) w))
   <= transfers url w + 1)%nat
  /\ tasks (snd (performWith onSpawn (DownloadAsync u dest) w)) = tasks w.
Proof.
  unfold transfers. simpl. split; [|reflexivity].
  rewrite filter_app, length_app. simpl.
  destruct (u =? url); simpl; lia.
Qed.

Lemma runSyncWith_budget {A : Type} (onSpawn : string -> World -> World)
    (url : string) (n : nat) (p : Prog A) :
  Budget n p ->
  forall w : World,
    Budget n (fst (runSyncWith onSpawn p w))
    /\ transfers url (snd (runSyncWith onSpawn p w)) = transfers url w
    /\ tasks (snd (runSyncWith onSpawn p w)) = tasks w.
Proof.
  intros Hp.
  induction Hp as [n a|n e|n op k Hop Hk IH|n u dest k Hk IH]; intros w; simpl.
  - repeat split. constructor.
  - repeat split. constructor.
  - destruct (awaited op).
    + simpl. repeat split. constructor; auto.
    + destruct (perform_plain onSpawn url op w Hop) as [Ht Hs].
      destruct (IH (fst (performWith onSpawn op w)) (snd (performWith onSpawn op w)))
        as (Hb & Ht' & Hs').
      split; [exact Hb|]. split; [now rewrite Ht', Ht | now rewrite Hs', Hs].
  - repeat split. apply BudgetTransfer; auto.
Qed.

Lemma resume_budget (url : string) (n : nat) (p : Prog (option string)) (w : World) :
  Budget n p ->
  exists m,
    Budget m (fst (resume p w))
    /\ (transfers url (snd (resume p w)) + m <= transfers url w + n)%nat
    /\ tasks (snd (resume p w)) = tasks w.
Proof.
  intros Hp. destruct Hp as [n a|n e|n op k Hop Hk|n u dest k Hk];
    unfold resume; cbv beta iota zeta.
  - exists n. simpl. repeat split; [constructor|lia].
  - exists n. simpl. repeat split; [constructor|lia].
  - destruct (perform_plain call url op w Hop) as [Ht Hs].
    destruct (runSyncWith_budget call url n _ (Hk (fst (perform op w)))
                (snd (perform op w))) as (Hb & Ht' & Hs').
    exists n. unfold runSync, perform in *.
    split; [exact Hb|]. split; [rewrite Ht', Ht; lia|]. now rewrite Hs', Hs.
  - destruct (perform_transfer call url u dest w) as [Ht Hs].
    destruct (runSyncWith_budget call url n _
                (Hk (fst (perform (DownloadAsync u dest) w)))
                (snd (perform (DownloadAsync u dest) w))) as (Hb & Ht' & Hs').
    exists n. unfold runSync, perform in *.
    split; [exact Hb|]. split; [rewrite Ht'; lia|]. now rewrite Hs', Hs.
Qed.

(** The pending tasks can afford [budgets] transfers between them. *)
Lemma stepTask_budget (url : string) (i : nat) (budgets : list nat) (w : World) :
  Forall2 Budget budgets (tasks w) ->
  exists budgets',
    Forall2 Budget budgets' (tasks (stepTask i w))
    /\ (transfers url (stepTask i w) + list_sum budgets'
        <= transfers url w + list_sum budgets)%nat.
Proof.
  unfold stepTask. intros Hall.
  destruct (nth_error (tasks w) i) as [p|] eqn:Hnth; [|exists budgets; split; [exact Hall|lia]].
  assert (Hsplit : exists n, nth_error budgets i = Some n /\ Budget n p).
  { clear -Hall Hnth. revert i Hnth.
    induction Hall as [|n q ns qs Hb Hall IH]; intros [|i] Hnth; simpl in *;
      try discriminate.
    - inversion Hnth; subst. eauto.
    - apply IH. exact Hnth. }
  destruct Hsplit as (n & Hn & Hb).
  destruct (resume_budget url n p w Hb) as (m & Hm & Hcost & Htasks).
  exists (replaceNth i m budgets). unfold transfers in *. simpl. split.
  - rewrite Htasks. clear -Hall Hm. revert i.
    induction Hall as [|k q ns qs Hk Hall IH]; intros [|i]; simpl;
      constructor; auto.
  - assert (Hsum : (list_sum (replaceNth i m budgets) + n = list_sum budgets + m)%nat).
    { clear -Hn. revert i Hn.
      induction budgets as [|b budgets IH]; intros [|i] Hn; simpl in *;
        try discriminate.
      - inversion Hn; subst. lia.
      - specialize (IH i Hn). lia. }
    lia.
Qed.

Lemma schedule_budget (url : string) (order : list nat) (budgets : list nat)
    (w : World) :
  Forall2 Budget budgets (tasks w) ->
  (transfers url (schedule order w) <= transfers url w + list_sum budgets)%nat.
Proof.
  unfold schedule. revert budgets w.
  induction order as [|i order IH]; intros budgets w Hall; simpl; [lia|].
  destruct (stepTask_budget url i budgets w Hall) as (budgets' & Hall' & Hcost).
  specialize (IH budgets' (stepTask i w) Hall'). lia.
Qed.

Lemma call_budget (url u : string) (w : World) :
  exists p, tasks (call u w) = tasks w ++ [p] /\ Budget 1 p
            /\ transfers url (call u w) = transfers url w.
Proof.
  unfold call.
  destruct (runSyncWith_budget (fun _ w' => w') url 1 _ (Budget_downloadVideo u) w)
    as (Hb & Ht & Hs).
  eexists. split; [|split; [exact Hb|]].
  - unfold addTask; cbn [tasks]. rewrite Hs. reflexivity.
  - unfold transfers in *. unfold addTask; cbn [trace]. exact Ht.
Qed.

(** C1 (amended). Two requests for the same key made concurrently: in
    whatever order the two tasks are resumed, and whatever the storage and
    the transport answer, the transport is asked for at most two transfers
    of that key, one for each request. *)
Theorem concurrent_requests_at_most_one_transfer_each
    (url : string) (order : list nat) (w : World) :
  tasks w = [] ->
  (transfers url (schedule order (call url (call url w)))
   <= transfers url w + 2)%nat.
Proof.
  intros Hnone.
  destruct (call_budget url url w) as (p1 & Ht1 & Hb1 & Hn1).
  destruct (call_budget url url (call url w)) as (p2 & Ht2 & Hb2 & Hn2).
  assert (Hall : Forall2 Budget [1; 1]%nat (tasks (call url (call url w)))).
  { rewrite Ht2, Ht1, Hnone. simpl. repeat constructor; assumption. }
  pose proof (schedule_budget url order _ _ Hall) as H.
  change (list_sum [1; 1]%nat) with 2%nat in H. rewrite Hn2, Hn1 in H. exact H.
Qed.
End RunLaws.

(** ** Sorting by modification time *)

Lemma insertByTime_perm (f : NamedInfo) (l : list NamedInfo) :
  Permutation (insertByTime f l) (f :: l).
Proof.
  induction l as [|g l IH]; simpl; [reflexivity|].
  destruct (Qle_bool (timeOf f) (timeOf g)); [reflexivity|].
  rewrite IH. apply perm_swap.
Qed.

Lemma sortByTime_perm (l : list NamedInfo) : Permutation (sortByTime l) l.
Proof.
  induction l as [|f l IH]; simpl; [reflexivity|].
  rewrite insertByTime_perm. now apply perm_skip.
Qed.

(** [Ordered l]: every file of [l] is at most as recent as those after it. *)
Lemma insertByTime_ordered (f : NamedInfo) (l : list NamedInfo) :
  StronglySorted olderOrSame l -> StronglySorted olderOrSame (insertByTime f l).
Proof.
  induction 1 as [|g l Hl IH Hg]; simpl.
  - repeat constructor.
  - destruct (Qle_bool (timeOf f) (timeOf g)) eqn:Hle.
    + apply Qle_bool_iff in Hle.
      constructor; [constructor; assumption|].
      constructor; [exact Hle|].
      eapply Forall_impl; [|exact Hg]. unfold olderOrSame. intros h Hh.
      eapply Qle_trans; eassumption.
    + constructor; [exact IH|].
      assert (Hgf : olderOrSame g f).
      { unfold olderOrSame. destruct (Qlt_le_dec (timeOf g) (timeOf f)) as [Hlt|Hge].
        - apply Qlt_le_weak, Hlt.
        - apply Qle_bool_iff in Hge. congruence. }
      rewrite (insertByTime_perm f l). constructor; assumption.
Qed.

Lemma sortByTime_ordered (l : list NamedInfo) :
  StronglySorted olderOrSame (sortByTime l).
Proof.
  induction l; simpl; [constructor|]. now apply insertByTime_ordered.
Qed.


(** ** The hook on a disk *)

Lemma append_eq_self (s t : string) : (s ++ t)%string = s -> t = "".
Proof.
  induction s as [|a s IH]; simpl; intros H; [exact H|].
  injection H as H. auto.
Qed.

Lemma stripPrefix_append (s t : string) : stripPrefix s (s ++ t) = Some t.
Proof.
  induction s as [|a s IH]; simpl; [reflexivity|].
  now rewrite Ascii.eqb_refl.
Qed.

Lemma lookup_In (es : list Entry) (e : Entry) :
  NoDup (map entryName es) -> In e es -> lookup (entryName e) es = Some e.
Proof.
  unfold lookup. induction es as [|x es IH]; simpl; intros Hnd Hin; [contradiction|].
  inversion Hnd as [|? ? Hx Hrest]; subst.
  destruct Hin as [->|Hin].
  - now rewrite String.eqb_refl.
  - destruct (String.eqb_spec (entryName x) (entryName e)) as [Heq|Hne].
    + exfalso. apply Hx. rewrite Heq. now apply in_map.
    + auto.
Qed.

Lemma lookup_without (file other : string) (es : list Entry) :
  other <> file -> lookup other (without file es) = lookup other es.
Proof.
  unfold lookup, without. intros Hne.
  induction es as [|x es IH]; simpl; [reflexivity|].
  destruct (String.eqb_spec (entryName x) file) as [Heq|Hneq]; simpl.
  - destruct (String.eqb_spec (entryName x) other); [congruence|exact IH].
  - destruct (entryName x =? other); [reflexivity|exact IH].
Qed.

Lemma removeAll_cons (file : string) (files : list string) (es : list Entry) :
  removeAll (file :: files) es = removeAll files (without file es).
Proof.
  unfold removeAll, without.
  induction es as [|x es IH]; simpl in *; [reflexivity|].
  destruct (entryName x =? file); simpl; rewrite IH; reflexivity.
Qed.

Lemma removeAll_nil (es : list Entry) : removeAll [] es = es.
Proof.
  unfold removeAll. induction es as [|x es IH]; simpl in *; [reflexivity|].
  now rewrite IH.
Qed.

Section OnDisk.

Context {closure : Closure}.

Local Abbreviation World := (World Disk).

Lemma stat_on_disk (w : World) (e : Entry) :
  root (ext w) = cacheDir ->
  entryName e <> "" ->
  lookup (entryName e) (entries (ext w)) = Some e ->
  run (statFile (entryName e)) w
  = (Resolved (namedInfo e),
     record (Stat (cacheDir ++ entryName e)
                  (inr (entryInfo (cacheDir ++ entryName e) e))) w).
Proof.
  intros Hroot Hname Hlook. unfold statFile. cbn.
  unfold diskStat. rewrite Hroot.
  destruct (String.eqb_spec (cacheDir ++ entryName e) cacheDir) as [Heq|_].
  { apply append_eq_self in Heq. contradiction. }
  rewrite stripPrefix_append, Hlook. cbn. unfold namedInfo.
  destruct w; reflexivity.
Qed.

Lemma mapAll_statFile_on_disk (es : list Entry) (w : World) :
  root (ext w) = cacheDir ->
  (forall e, In e es ->
     entryName e <> "" /\ lookup (entryName e) (entries (ext w)) = Some e) ->
  exists w',
    run (mapAll statFile (map entryName es)) w = (Resolved (map namedInfo es), w')
    /\ ext w' = ext w.
Proof.
  revert w. induction es as [|e es IH]; intros w Hroot Hall; cbn [mapAll map].
  - exists w. split; reflexivity.
  - destruct (Hall e (or_introl eq_refl)) as [Hname Hlook].
    rewrite run_bind, (stat_on_disk w e Hroot Hname Hlook).
    rewrite run_bind.
    match goal with |- context [run (mapAll statFile _) ?w1] =>
      destruct (IH w1) as (w' & Hrun & Hext)
    end; [exact Hroot|intros x Hx; apply Hall; now right|].
    rewrite Hrun. cbn. exists w'. split; [reflexivity|exact Hext].
Qed.

Lemma existing_files_on_disk (es : list Entry) :
  filter (fun file => exists_ file && negb (isDirectory_ file)) (map namedInfo es)
  = map namedInfo (regularFiles es).
Proof.
  unfold regularFiles. induction es as [|e es IH]; simpl; [reflexivity|].
  unfold isDirectory_ at 1. simpl.
  destruct (entryIsDirectory e); simpl; now rewrite IH.
Qed.

Lemma dated_files_on_disk (es : list Entry) :
  filter hasModificationTime (map namedInfo es) = map namedInfo es.
Proof.
  induction es as [|e es IH]; simpl; [reflexivity|]. now rewrite IH.
Qed.

(** The deletion loop on a disk that refuses no deletion. *)
Lemma evict_on_disk (files : list NamedInfo) (currentSize : Q) (w : World) :
  root (ext w) = cacheDir ->
  stuck (ext w) = [] ->
  NoDup (map name files) ->
  (forall f, In f files ->
     path f = (cacheDir ++ name f)%string /\ name f <> ""
     /\ lookup (name f) (entries (ext w)) <> None) ->
  fst (run (evict files currentSize) w) = Resolved tt
  /\ entries (ext (snd (run (evict files currentSize) w)))
     = removeAll (map name (evicted files currentSize)) (entries (ext w)).
Proof.
  revert currentSize w.
  induction files as [|f files IH]; intros cur w Hroot Hstuck Hnd Hall; simpl.
  - split; [reflexivity|]. now rewrite removeAll_nil.
  - destruct (Qle_bool cur (maxCacheSize mergedOptions * (8 # 10))).
    + simpl. split; [reflexivity|]. now rewrite removeAll_nil.
    + destruct (Hall f (or_introl eq_refl)) as (Hpath & Hname & Hlook).
      inversion Hnd as [|? ? Hf Hrest]; subst.
      cbn. unfold diskDelete. rewrite Hstuck, Hpath, Hroot. simpl existsb. cbv iota.
      destruct (String.eqb_spec (cacheDir ++ name f) cacheDir) as [Heq|_].
      { apply append_eq_self in Heq. contradiction. }
      rewrite stripPrefix_append.
      destruct (lookup (name f) (entries (ext w))) as [found|]; [|contradiction].
      cbn.
      match goal with |- context [run (evict files ?c) ?w1] =>
        destruct (IH c w1) as [Hout Hentries]
      end; try assumption.
      { intros g Hg. destruct (Hall g (or_intror Hg)) as (Hp & Hn & Hl).
        repeat split; try assumption.
        cbn [ext entries withExt record withEntries snd fst].
        rewrite lookup_without; [exact Hl|].
        intros Heq. apply Hf. rewrite <- Heq. now apply in_map. }
      split; [exact Hout|]. rewrite Hentries. cbn. now rewrite removeAll_cons.
Qed.


Lemma manageCacheSize_on_disk (w : World) :
  wellFormed (ext w) ->
  root (ext w) = cacheDir ->
  rootExists (ext w) = true ->
  stuck (ext w) = [] ->
  let files := map namedInfo (regularFiles (entries (ext w))) in
  let totalSizeMB := toMB (totalSizeOf files) in
  fst (run manageCacheSize w) = Resolved tt
  /\ entries (ext (snd (run manageCacheSize w)))
     = if Qle_bool totalSizeMB (maxCacheSize mergedOptions) then entries (ext w)
       else removeAll (map name (evicted (sortByTime files) totalSizeMB))
                      (entries (ext w)).
Proof.
  intros [Hnd Hnonempty] Hroot Hexists Hstuck files totalSizeMB.
  unfold manageCacheSize. rewrite run_try_catch. cbn.
  unfold diskList. rewrite Hroot, String.eqb_refl, Hexists. cbn.
  rewrite run_bind.
  match goal with |- context [run (mapAll statFile _) ?w1] =>
    destruct (mapAll_statFile_on_disk (entries (ext w)) w1) as (w2 & Hrun & Hext)
  end.
  { exact Hroot. }
  { intros e He. split.
    - intros Hname. apply Hnonempty. rewrite <- Hname. now apply in_map.
    - now apply lookup_In. }
  rewrite Hrun. cbn in Hext.
  rewrite existing_files_on_disk, dated_files_on_disk.
  fold files. fold totalSizeMB.
  destruct (Qle_bool totalSizeMB (maxCacheSize mergedOptions)); cbn.
  { split; [reflexivity|]. now rewrite Hext. }
  assert (Hperm : Permutation (sortByTime files) files) by apply sortByTime_perm.
  destruct (evict_on_disk (sortByTime files) totalSizeMB w2) as [Hout Hentries].
  - now rewrite Hext.
  - now rewrite Hext.
  - apply Permutation_NoDup with (map name files).
    + apply Permutation_map. now symmetry.
    + unfold files. rewrite map_map. cbn.
      unfold regularFiles. clear -Hnd.
      induction (entries (ext w)) as [|e es IH]; simpl in *; [constructor|].
      inversion Hnd as [|? ? He Hes]; subst.
      destruct (entryIsDirectory e); simpl; auto.
      constructor; auto. intros Hin. apply He.
      apply in_map_iff in Hin as (x & Hx & Hin).
      apply filter_In in Hin as [Hin _]. rewrite <- Hx. now apply in_map.
  - intros f Hf. apply (Permutation_in _ Hperm) in Hf.
    unfold files in Hf. apply in_map_iff in Hf as (e & <- & He).
    apply filter_In in He as [He _]. cbn. rewrite Hext. repeat split.
    + intros Hname. apply Hnonempty. rewrite <- Hname. now apply in_map.
    + rewrite (lookup_In _ _ Hnd He). discriminate.
  - destruct (run (evict (sortByTime files) totalSizeMB) w2) as [out w3].
    simpl in *. rewrite Hout. cbn. split; [reflexivity|].
    now rewrite Hentries, Hext.
Qed.


(** *** Sizes *)

Lemma toMB_plus (a b : Z) : (toMB (a + b) == toMB a + toMB b)%Q.
Proof. unfold toMB. rewrite inject_Z_plus. field. Qed.

Lemma toMB_zero : (toMB 0 == 0)%Q.
Proof. reflexivity. Qed.

Lemma totalSizeOf_sumSizes (files : list NamedInfo) :
  totalSizeOf files = sumSizes files.
Proof.
  unfold totalSizeOf.
  assert (H : forall acc, fold_left (fun sum file => (sum + sizeOf file)%Z) files acc
                          = (acc + sumSizes files)%Z).
  { induction files as [|f files IH]; intros acc; simpl; [lia|]. rewrite IH. lia. }
  now rewrite H.
Qed.


Lemma sumSizes_perm (a b : list NamedInfo) :
  Permutation a b -> sumSizes a = sumSizes b.
Proof. induction 1; simpl; lia. Qed.

Lemma bytesOf_sumSizes (es : list Entry) : bytesOf es = sumSizes (map namedInfo es).
Proof. induction es as [|e es IH]; simpl; [reflexivity|]. now rewrite IH. Qed.

(** *** What the loop deletes *)

Lemma evicted_split (files : list NamedInfo) (currentSize : Q) :
  exists rest,
    files = evicted files currentSize ++ rest
    /\ (rest = []
        \/ (currentSize - toMB (sumSizes (evicted files currentSize))
            <= maxCacheSize mergedOptions * (8 # 10))%Q).
Proof.
  revert currentSize. induction files as [|f files IH]; intros cur; simpl.
  - exists []. auto.
  - destruct (Qle_bool cur (maxCacheSize mergedOptions * (8 # 10))) eqn:Hle.
    + exists (f :: files). split; [reflexivity|]. right.
      apply Qle_bool_iff in Hle. simpl. rewrite toMB_zero. lra.
    + destruct (IH (cur - toMB (sizeOf f))%Q) as (rest & Hfiles & Hrest).
      exists rest. split; [simpl; now rewrite <- Hfiles|].
      destruct Hrest as [->|Hthr]; [now left|right].
      simpl. rewrite toMB_plus. lra.
Qed.


(** *** What stays *)


Lemma filter_perm {T : Type} (keep : T -> bool) (a b : list T) :
  Permutation a b -> Permutation (filter keep a) (filter keep b).
Proof.
  induction 1 as [|x a b Hab IH|x y a|a b c Hab IHab Hbc IHbc]; simpl.
  - constructor.
  - destruct (keep x); auto.
  - destruct (keep x), (keep y); auto using perm_swap.
  - now transitivity (filter keep b).
Qed.

Lemma keep_rest {T : Type} (nameOf : T -> string) (gone rest : list T) :
  NoDup (map nameOf (gone ++ rest)) ->
  filter (fun x => negb (existsb (String.eqb (nameOf x)) (map nameOf gone)))
         (gone ++ rest)
  = rest.
Proof.
  intros Hnd. rewrite filter_app.
  assert (Hgone : forall l, incl l gone ->
            filter (fun x => negb (existsb (String.eqb (nameOf x)) (map nameOf gone))) l
            = []).
  { induction l as [|x l IH]; simpl; intros Hincl; [reflexivity|].
    assert (Hex : existsb (String.eqb (nameOf x)) (map nameOf gone) = true).
    { apply existsb_exists. exists (nameOf x). split; [|apply String.eqb_refl].
      apply in_map, Hincl. now left. }
    rewrite Hex. simpl. apply IH. intros y Hy. apply Hincl. now right. }
  rewrite (Hgone gone (incl_refl gone)). simpl.
  rewrite map_app in Hnd.
  assert (Hrest : forall l, incl l rest ->
            filter (fun x => negb (existsb (String.eqb (nameOf x)) (map nameOf gone))) l
            = l).
  { induction l as [|x l IH]; simpl; intros Hincl; [reflexivity|].
    assert (Hex : existsb (String.eqb (nameOf x)) (map nameOf gone) = false).
    { destruct (existsb _ _) eqn:Hex; [|reflexivity]. exfalso.
      apply existsb_exists in Hex as (n & Hn & Heq).
      apply String.eqb_eq in Heq. subst n.
      revert Hnd Hn. clear -Hincl. intros Hnd Hn.
      induction (map nameOf gone) as [|d ds IHd]; simpl in *; [contradiction|].
      inversion Hnd as [|? ? Hd Hds]; subst.
      destruct Hn as [->|Hn]; [|auto].
      apply Hd, in_or_app. right. apply in_map, Hincl. now left. }
    rewrite Hex. simpl. f_equal. apply IH. intros y Hy. apply Hincl. now right. }
  apply Hrest, incl_refl.
Qed.


End OnDisk.

(** ** The five-file scenario *)

Lemma sorted_unique (a b : list NamedInfo) :
  StronglySorted olderOrSame a -> StronglySorted strictlyOlder b ->
  Permutation a b -> a = b.
Proof.
  intros Ha Hb. revert a Ha.
  induction Hb as [|x b Hb IH Hx]; intros a Ha Hperm.
  - now apply Permutation_sym, Permutation_nil in Hperm.
  - destruct a as [|y a].
    { apply Permutation_nil in Hperm. discriminate. }
    inversion Ha as [|? ? Ha' Hy]; subst.
    assert (Hyx : y = x).
    { assert (Hin : In y (x :: b)) by (apply (Permutation_in _ Hperm); now left).
      destruct Hin as [Heq|Hin]; [now symmetry|]. exfalso.
      rewrite Forall_forall in Hx, Hy.
      specialize (Hx y Hin). unfold strictlyOlder in Hx.
      assert (Hxa : In x (y :: a)).
      { apply (Permutation_in _ (Permutation_sym Hperm)). now left. }
      destruct Hxa as [Heq|Hxa].
      - subst. lra.
      - specialize (Hy x Hxa). unfold olderOrSame in Hy. lra. }
    subst y. f_equal. apply IH; [exact Ha'|].
    eapply Permutation_cons_inv. exact Hperm.
Qed.

Section FiveFiles.

Context {closure : Closure}.

(** C4 (amended). A ceiling of 100 MB and five files of 30 MiB with strictly
    increasing modification times, listed in any order: one pass deletes the
    three oldest files and leaves the two newest, 60 MiB. *)
Theorem manageCacheSize_five_files
    (w : World Disk) (n1 n2 n3 n4 n5 : string) (t1 t2 t3 t4 t5 : Q) :
  Permutation (entries (ext w))
    [videoFile n1 30 t1; videoFile n2 30 t2; videoFile n3 30 t3;
     videoFile n4 30 t4; videoFile n5 30 t5] ->
  (t1 < t2)%Q -> (t2 < t3)%Q -> (t3 < t4)%Q -> (t4 < t5)%Q ->
  wellFormed (ext w) ->
  root (ext w) = cacheDir ->
  rootExists (ext w) = true ->
  stuck (ext w) = [] ->
  maxCacheSize mergedOptions = 100%Q ->
  fst (run manageCacheSize w) = Resolved tt
  /\ entries (ext (snd (run manageCacheSize w)))
     = removeAll [n1; n2; n3] (entries (ext w))
  /\ Permutation (entries (ext (snd (run manageCacheSize w))))
       [videoFile n4 30 t4; videoFile n5 30 t5]
  /\ (directorySizeMB (entries (ext (snd (run manageCacheSize w)))) == 60)%Q.
Proof.
  intros Hperm H12 H23 H34 H45 Hwf Hroot Hexists Hstuck Hmax.
  pose proof Hwf as [Hnd _].
  destruct (manageCacheSize_on_disk w Hwf Hroot Hexists Hstuck) as [Hout Hentries].
  set (e1 := videoFile n1 30 t1) in *. set (e2 := videoFile n2 30 t2) in *.
  set (e3 := videoFile n3 30 t3) in *. set (e4 := videoFile n4 30 t4) in *.
  set (e5 := videoFile n5 30 t5) in *.
  set (files := map namedInfo (regularFiles (entries (ext w)))) in *.
  assert (Hfiles : Permutation files (map namedInfo [e1; e2; e3; e4; e5])).
  { unfold files. apply Permutation_map.
    change [e1; e2; e3; e4; e5] with (regularFiles [e1; e2; e3; e4; e5]).
    apply filter_perm, Hperm. }
  assert (Htotal : totalSizeOf files = 157286400%Z).
  { rewrite totalSizeOf_sumSizes, (sumSizes_perm _ _ Hfiles). reflexivity. }
  assert (Hsorted : sortByTime files = map namedInfo [e1; e2; e3; e4; e5]).
  { apply sorted_unique.
    - apply sortByTime_ordered.
    - simpl. repeat first [apply SSorted_nil | apply SSorted_cons
                          | apply Forall_nil | apply Forall_cons];
        unfold strictlyOlder, timeOf, e1, e2, e3, e4, e5; simpl; lra.
    - rewrite sortByTime_perm. exact Hfiles. }
  assert (Hevicted : evicted (map namedInfo [e1; e2; e3; e4; e5]) (toMB 157286400)
                     = map namedInfo [e1; e2; e3]).
  { unfold evicted. rewrite Hmax. reflexivity. }
  rewrite Htotal, Hsorted, Hevicted, Hmax in Hentries.
  change (entries (ext (snd (run manageCacheSize w)))
          = removeAll [n1; n2; n3] (entries (ext w))) in Hentries.
  assert (Hkept : Permutation (removeAll [n1; n2; n3] (entries (ext w))) [e4; e5]).
  { etransitivity; [apply filter_perm, Hperm|].
    assert (Hrest : removeAll [n1; n2; n3] [e1; e2; e3; e4; e5] = [e4; e5]).
    { apply (keep_rest entryName [e1; e2; e3] [e4; e5]).
      apply Permutation_NoDup with (map entryName (entries (ext w))); [|exact Hnd].
      apply Permutation_map, Hperm. }
    unfold removeAll in Hrest. now rewrite Hrest. }
  split; [exact Hout|]. split; [exact Hentries|]. rewrite Hentries.
  split; [exact Hkept|].
  unfold directorySizeMB.
  assert (Hbytes : bytesOf (regularFiles (removeAll [n1; n2; n3] (entries (ext w))))
                   = 62914560%Z).
  { rewrite bytesOf_sumSizes.
    rewrite (sumSizes_perm _ (map namedInfo (regularFiles [e4; e5]))).
    - reflexivity.
    - apply Permutation_map, filter_perm, Hkept. }
  rewrite Hbytes. reflexivity.
Qed.

End FiveFiles.

(** ** The scenarios, run *)

Lemma fiveFilesWorld_wellFormed : wellFormed (ext fiveFilesWorld).
Proof.
  split.
  - simpl. repeat (constructor; [simpl; intuition discriminate|]). constructor.
  - simpl. intuition discriminate.
Defined.

(** C1, counterexample. Two requests for the same video on an empty cache,
    resumed in turn: both pass their existence check before any file
    exists, and the transport is asked for the video twice. *)
Lemma two_requests_two_transfers :
  ~ @singleFlight Disk DiskGateway hook500 remoteVideo inTurn emptyCacheWorld.
Proof.
  unfold singleFlight. intros H. vm_compute in H. lia.
Qed.

(** After three steps each, neither request has produced a result and both
    have a download in flight. *)
Lemma two_requests_both_in_flight :
  map (inFlight remoteVideo)
      (tasks (@schedule Disk DiskGateway hook500 [0; 1; 0; 1; 0; 1]%nat
                (@call Disk DiskGateway hook500 remoteVideo
                   (@call Disk DiskGateway hook500 remoteVideo emptyCacheWorld))))
  = [true; true].
Proof. vm_compute. reflexivity. Qed.

Lemma concurrent_requests_witness :
  tasks emptyCacheWorld = []
  /\ (transfers remoteVideo
        (@schedule Disk DiskGateway hook500 inTurn
           (@call Disk DiskGateway hook500 remoteVideo
              (@call Disk DiskGateway hook500 remoteVideo emptyCacheWorld)))
      <= transfers remoteVideo emptyCacheWorld + 2)%nat.
Proof.
  split; [reflexivity|].
  apply (@concurrent_requests_at_most_one_transfer_each
           Disk DiskGateway hook500 remoteVideo inTurn emptyCacheWorld).
  reflexivity.
Defined.

(** C2, counterexample. Three files of 30 MiB under a ceiling of 50 MB, the
    oldest one undeletable: the pass stops at the refused deletion, the two
    deletable files stay, and the directory still weighs 90 MB. *)
Lemma stuck_file_aborts_pass :
  ~ @evictionContinuesPastFailure hook50 stuckFileWorld.
Proof.
  unfold evictionContinuesPastFailure. intros [H|H].
  - vm_compute in H. apply H. reflexivity.
  - specialize (H (videoFile "b.mp4" 30 2)).
    assert (Hin : In (videoFile "b.mp4" 30 2)
                     (regularFiles
                        (entries (ext (snd (@run Disk DiskGateway hook50 unit
                                              (@manageCacheSize hook50)
                                              stuckFileWorld)))))).
    { vm_compute. right. left. reflexivity. }
    specialize (H Hin). vm_compute in H. destruct H as [H|[]]. discriminate.
Qed.


(** C4, counterexample. The scenario of the specification: the pass does not
    leave the three newest files and 90 MiB. *)
Lemma five_files_not_two_deleted :
  ~ @evictionLeaves hook100 fiveFilesWorld ["c.mp4"; "d.mp4"; "e.mp4"] 90.
Proof.
  unfold evictionLeaves. intros [H _]. vm_compute in H. discriminate.
Qed.

Lemma manageCacheSize_five_files_witness :
  Permutation (entries (ext fiveFilesWorld))
    [videoFile "a.mp4" 30 1; videoFile "b.mp4" 30 2; videoFile "c.mp4" 30 3;
     videoFile "d.mp4" 30 4; videoFile "e.mp4" 30 5]
  /\ (1 < 2)%Q /\ (2 < 3)%Q /\ (3 < 4)%Q /\ (4 < 5)%Q
  /\ wellFormed (ext fiveFilesWorld)
  /\ root (ext fiveFilesWorld) = @cacheDir hook100
  /\ rootExists (ext fiveFilesWorld) = true
  /\ stuck (ext fiveFilesWorld) = []
  /\ maxCacheSize (@mergedOptions hook100) = 100%Q
  /\ map entryName
       (entries (ext (snd (@run Disk DiskGateway hook100 unit
                             (@manageCacheSize hook100) fiveFilesWorld))))
     = ["d.mp4"; "e.mp4"]
  /\ (directorySizeMB
        (entries (ext (snd (@run Disk DiskGateway hook100 unit
                              (@manageCacheSize hook100) fiveFilesWorld))))
      == 60)%Q.
Proof.
  assert (Hlt : (1 < 2)%Q /\ (2 < 3)%Q /\ (3 < 4)%Q /\ (4 < 5)%Q)
    by (repeat split; reflexivity).
  destruct Hlt as (H12 & H23 & H34 & H45).
  destruct (@manageCacheSize_five_files hook100 fiveFilesWorld
              "a.mp4" "b.mp4" "c.mp4" "d.mp4" "e.mp4" 1 2 3 4 5
              (Permutation_refl _) H12 H23 H34 H45
              fiveFilesWorld_wellFormed eq_refl eq_refl eq_refl eq_refl)
    as (_ & Hentries & _ & Hsize).
  split; [apply Permutation_refl|].
  split; [exact H12|]. split; [exact H23|]. split; [exact H34|].
  split; [exact H45|]. split; [exact fiveFilesWorld_wellFormed|].
  split; [reflexivity|]. split; [reflexivity|]. split; [reflexivity|].
  split; [reflexivity|]. split; [|exact Hsize].
  rewrite Hentries. reflexivity.
Defined.

Lemma handleVideoSource_serves_remote_witness :
  source_uri (@source preloadingHook) = Some remoteVideo
  /\ enableCaching (@mergedOptions preloadingHook) = true
  /\ @cachingRefused preloadingHook = false
  /\ fst (@run Disk DiskGateway preloadingHook bool
            (@checkIfCached preloadingHook remoteVideo)
            (@checkingCache Disk DiskGateway preloadingHook emptyCacheWorld))
     = Resolved false
  /\ uri (videoSource
            (hook (snd (@run Disk DiskGateway preloadingHook unit
                          (@handleVideoSource preloadingHook) emptyCacheWorld))))
     = remoteVideo.
Proof.
  split; [reflexivity|]. split; [reflexivity|]. split; [reflexivity|].
  split; [reflexivity|].
  exact (proj1 (proj2 (@handleVideoSource_serves_remote Disk DiskGateway
                         preloadingHook remoteVideo emptyCacheWorld
                         eq_refl eq_refl eq_refl eq_refl))).
Defined.



(** What the pass of the stuck-file scenario asked of the storage: the
    refused deletion of the oldest file is followed by the warning alone. *)
Example stuck_file_trace :
  trace (snd (@run Disk DiskGateway hook50 unit (@manageCacheSize hook50)
                stuckFileWorld))
  = [ Listed "file:///data/videos/" (inr ["a.mp4"; "b.mp4"; "c.mp4"]);
      Stat "file:///data/videos/a.mp4"
        (inr (Present "file:///data/videos/a.mp4" 31457280 false 1));
      Stat "file:///data/videos/b.mp4"
        (inr (Present "file:///data/videos/b.mp4" 31457280 false 2));
      Stat "file:///data/videos/c.mp4"
        (inr (Present "file:///data/videos/c.mp4" 31457280 false 3));
      Deleted "file:///data/videos/a.mp4"
        (inl (ErrorObject "File could not be deleted"));
      Warned "Error managing cache size:"
        (ErrorObject "File could not be deleted") ].
Proof. vm_compute. reflexivity. Qed.

(** The main effect with preload enabled on a network that breaks: the
    effect serves the remote identifier and leaves the download pending;
    when that task has run to its end the error is set, nothing is loading,
    the served path is still the remote identifier, and the half file is on
    the disk. *)
Example preload_failure_keeps_remote_source :
  let served := snd (@run Disk DiskGateway preloadingHook unit
                       (@handleVideoSource preloadingHook) brokenNetworkWorld) in
  let settled := @schedule Disk DiskGateway preloadingHook [0; 0; 0; 0]%nat served in
  length (tasks served) = 1%nat
  /\ downloads served = []
  /\ tasks settled = [Ret None]
  /\ uri (videoSource (hook settled)) = remoteVideo
  /\ error (hook settled) = Some "Network request failed"
  /\ isLoading (hook settled) = false
  /\ isCached (hook settled) = false
  /\ map entryName (entries (ext settled)) = ["video.mp4"].
Proof. vm_compute. repeat split. Qed.

(** * Further properties *)

(** ** Key resolution: segments *)

Lemma split_not_nil (sep : ascii) (s : string) : split sep s <> [].
Proof.
  destruct s as [|c s]; simpl; [discriminate|].
  destruct (Ascii.eqb c sep); [discriminate|].
  destruct (split sep s); discriminate.
Qed.

Lemma split_without_separator (sep : ascii) (s : string) :
  includes sep s = false -> split sep s = [s].
Proof.
  induction s as [|c s IH]; simpl; [reflexivity|].
  intros H. apply orb_false_iff in H as [Hc Hs].
  rewrite Hc, (IH Hs). reflexivity.
Qed.

Lemma split_with_separator (sep : ascii) (s : string) :
  includes sep s = true ->
  exists seg seg' segs, split sep s = seg :: seg' :: segs.
Proof.
  induction s as [|c s IH]; simpl; [discriminate|].
  destruct (Ascii.eqb c sep) eqn:Hc; simpl.
  - intros _. destruct (split sep s) as [|seg segs] eqn:Hs.
    + now apply split_not_nil in Hs.
    + eauto.
  - intros H. destruct (IH H) as (seg & seg' & segs & ->). eauto.
Qed.

Lemma segments_have_no_separator (sep : ascii) (s seg : string) :
  In seg (split sep s) -> includes sep seg = false.
Proof.
  revert seg. induction s as [|c s IH]; simpl; intros seg Hin.
  - destruct Hin as [<-|[]]. reflexivity.
  - destruct (Ascii.eqb c sep) eqn:Hc.
    + destruct Hin as [<-|Hin]; [reflexivity|auto].
    + destruct (split sep s) as [|seg0 segs] eqn:Hs.
      * destruct Hin as [<-|[]]. simpl. now rewrite Hc.
      * destruct Hin as [<-|Hin].
        -- simpl. rewrite Hc. apply IH. now left.
        -- apply IH. now right.
Qed.

Lemma lastOf_In (parts : list string) : parts <> [] -> In (lastOf parts) parts.
Proof.
  unfold lastOf. induction parts as [|p parts IH]; [congruence|]. intros _.
  destruct parts as [|q parts]; [now left|].
  right. apply IH. discriminate.
Qed.

Lemma firstOf_In (parts : list string) : parts <> [] -> In (firstOf parts) parts.
Proof. destruct parts; [congruence|]. intros _. now left. Qed.

Lemma lastOf_split_cons (sep c : ascii) (s : string) :
  lastOf (split sep (String c s)) =
    if Ascii.eqb c sep then lastOf (split sep s)
    else if includes sep s then lastOf (split sep s)
    else String c s.
Proof.
  unfold lastOf. simpl. destruct (Ascii.eqb c sep).
  - destruct (split sep s) as [|seg segs] eqn:Hs; [|reflexivity].
    now apply split_not_nil in Hs.
  - destruct (includes sep s) eqn:Hin.
    + destruct (split_with_separator sep s Hin) as (seg & seg' & segs & ->).
      reflexivity.
    + now rewrite (split_without_separator sep s Hin).
Qed.

Lemma includes_append (c : ascii) (a b : string) :
  includes c (a ++ b) = includes c a || includes c b.
Proof.
  induction a as [|x a IH]; simpl; [reflexivity|].
  now rewrite IH, orb_assoc.
Qed.

Lemma lastOf_split_append (sep : ascii) (a b : string) :
  includes sep b = false ->
  lastOf (split sep (a ++ String sep b)) = b.
Proof.
  intros Hb. induction a as [|c a IH].
  - change ("" ++ String sep b)%string with (String sep b).
    rewrite lastOf_split_cons, Ascii.eqb_refl.
    now rewrite (split_without_separator sep b Hb).
  - change (String c a ++ String sep b)%string with (String c (a ++ String sep b)).
    rewrite lastOf_split_cons.
    assert (Hin : includes sep (a ++ String sep b) = true).
    { rewrite includes_append. simpl. rewrite Ascii.eqb_refl. apply orb_true_r. }
    rewrite Hin. destruct (Ascii.eqb c sep); exact IH.
Qed.

(** X1. The key depends on the final path segment alone: whatever precedes
    the last '/', two identifiers with the same final segment resolve to the
    same key (so files of the same name under different hosts or
    directories share one cache entry). *)
Theorem getCacheFilename_final_segment_only
    (timestamp : N) (before file : string) :
  includes "/" file = false ->
  getCacheFilename timestamp (before ++ "/" ++ file) = getCacheFilename timestamp file.
Proof.
  intros Hfile. unfold getCacheFilename.
  change ("/" ++ file)%string with (String "/" file).
  rewrite (lastOf_split_append "/" before file Hfile).
  rewrite (split_without_separator "/" file Hfile). reflexivity.
Qed.

Lemma getCacheFilename_final_segment_only_witness :
  includes "/" "clip.mp4?sig=7" = false
  /\ getCacheFilename 5 ("https://a.example/one" ++ "/" ++ "clip.mp4?sig=7")
     = getCacheFilename 5 "clip.mp4?sig=7".
Proof.
  split; [reflexivity|].
  apply (getCacheFilename_final_segment_only 5 "https://a.example/one" "clip.mp4?sig=7").
  reflexivity.
Defined.

(** X2. An identifier that ends in a plain file name (no '/', no '?', at
    least one '.') resolves to that very file name, whatever the clock
    says. *)
Theorem getCacheFilename_plain_name
    (timestamp : N) (before file : string) :
  includes "/" file = false ->
  includes "?" file = false ->
  includes "." file = true ->
  getCacheFilename timestamp (before ++ "/" ++ file) = file.
Proof.
  intros Hslash Hquery Hdot. unfold getCacheFilename.
  change ("/" ++ file)%string with (String "/" file).
  rewrite (lastOf_split_append "/" before file Hslash), Hdot, Hquery.
  reflexivity.
Qed.

Lemma getCacheFilename_plain_name_witness :
  includes "/" "video.mp4" = false
  /\ includes "?" "video.mp4" = false
  /\ includes "." "video.mp4" = true
  /\ getCacheFilename 5 ("https://cdn.example/a" ++ "/" ++ "video.mp4") = "video.mp4".
Proof.
  split; [reflexivity|]. split; [reflexivity|]. split; [reflexivity|].
  apply (getCacheFilename_plain_name 5 "https://cdn.example/a" "video.mp4");
    reflexivity.
Defined.

Lemma digits_exclude (c : ascii) (d : Decimal.uint) :
  (c = "/" \/ c = "?" \/ c = ".")%char ->
  includes c (NilEmpty.string_of_uint d) = false.
Proof.
  intros Hc. induction d; simpl; try reflexivity; rewrite IHd;
    destruct Hc as [->|[->| ->]]; reflexivity.
Qed.

(** X3. A key never contains a path separator or a query mark: it is one
    path component under the cache directory. *)
Theorem getCacheFilename_one_component (timestamp : N) (url : string) :
  includes "/" (getCacheFilename timestamp url) = false
  /\ includes "?" (getCacheFilename timestamp url) = false.
Proof.
  rewrite getCacheFilename_cases.
  destruct (includes "." (lastOf (split "/" url))).
  - unfold strippedSegment. split.
    + destruct (includes "/" (firstOf (split "?" (lastOf (split "/" url))))) eqn:H;
        [|reflexivity].
      apply includes_firstOf_split in H.
      rewrite (segments_have_no_separator "/" url) in H; [discriminate|].
      apply lastOf_In, split_not_nil.
    + apply (segments_have_no_separator "?" (lastOf (split "/" url))).
      apply firstOf_In, split_not_nil.
  - unfold ofNumber. rewrite !includes_append.
    rewrite !digits_exclude by auto. split; reflexivity.
Qed.

Lemma firstOf_split_empty (sep : ascii) (s : string) :
  firstOf (split sep s) = "" -> s = "" \/ exists rest, s = String sep rest.
Proof.
  destruct s as [|c s]; [now left|]. simpl.
  destruct (Ascii.eqb_spec c sep) as [->|Hne].
  - intros _. right. eauto.
  - destruct (split sep s); simpl; discriminate.
Qed.

(** X4. The key is empty exactly when the final segment starts with '?' and
    has a '.' in what follows: the query string is all there is, and
    stripping it leaves nothing. *)
Theorem getCacheFilename_empty_key (timestamp : N) (url : string) :
  getCacheFilename timestamp url = ""
  <-> exists query,
        lastOf (split "/" url) = String "?" query /\ includes "." query = true.
Proof.
  rewrite getCacheFilename_cases. split.
  - destruct (includes "." (lastOf (split "/" url))) eqn:Hdot; [|discriminate].
    unfold strippedSegment. intros H.
    apply firstOf_split_empty in H as [H|(query & H)].
    + rewrite H in Hdot. discriminate.
    + exists query. split; [exact H|]. rewrite H in Hdot. exact Hdot.
  - intros (query & Hseg & Hdot). unfold strippedSegment.
    rewrite Hseg. simpl. rewrite Hdot. reflexivity.
Qed.

Lemma length_append (a b : string) :
  String.length (a ++ b) = (String.length a + String.length b)%nat.
Proof. induction a; simpl; auto. Qed.

Lemma append_cancel_r (a b s : string) : (a ++ s = b ++ s)%string -> a = b.
Proof.
  revert b. induction a as [|c a IH]; intros [|c' b] H; simpl in H.
  - reflexivity.
  - apply (f_equal String.length) in H. simpl in H.
    rewrite length_append in H. lia.
  - apply (f_equal String.length) in H. simpl in H.
    rewrite length_append in H. lia.
  - injection H as -> H. f_equal. auto.
Qed.

Lemma ofNumber_injective (m n : N) : ofNumber m = ofNumber n -> m = n.
Proof.
  unfold ofNumber. intros H.
  assert (Hd : N.to_uint m = N.to_uint n).
  { pose proof (NilEmpty.usu (N.to_uint m)) as Hm.
    pose proof (NilEmpty.usu (N.to_uint n)) as Hn.
    rewrite H in Hm. congruence. }
  rewrite <- (DecimalN.Unsigned.of_to m), <- (DecimalN.Unsigned.of_to n).
  now rewrite Hd.
Qed.

(** X5. An identifier whose final segment has no '.' gets a different key at
    every reading of the clock: what was stored under one key is not found
    again under the key of a later call. *)
Theorem getCacheFilename_synthetic_keys_differ
    (url : string) (firstCall secondCall : N) :
  includes "." (lastOf (split "/" url)) = false ->
  firstCall <> secondCall ->
  getCacheFilename firstCall url <> getCacheFilename secondCall url.
Proof.
  intros Hdot Hne. rewrite !getCacheFilename_cases, Hdot. intros H.
  simpl in H. injection H as H.
  apply append_cancel_r, ofNumber_injective in H. contradiction.
Qed.

Lemma getCacheFilename_synthetic_keys_differ_witness :
  includes "." (lastOf (split "/" "https://cdn.example/stream")) = false
  /\ 1700000000000%N <> 1700000000001%N
  /\ getCacheFilename 1700000000000 "https://cdn.example/stream"
     <> getCacheFilename 1700000000001 "https://cdn.example/stream".
Proof.
  assert (Hne : 1700000000000%N <> 1700000000001%N) by discriminate.
  split; [reflexivity|]. split; [exact Hne|].
  apply (getCacheFilename_synthetic_keys_differ "https://cdn.example/stream");
    [reflexivity|exact Hne].
Defined.

(** ** Progress reporting: the ordinary case *)





(** ** The hook against any storage *)

Section MoreLaws.

Context {E : Type} {gateway : StorageGateway E} {closure : Closure}.

Local Abbreviation World := (World E).

(** X8. [clearCache] never rejects and leaves the served source, the
    loading flag and the pending tasks alone.  Either it resets [isCached]
    and the progress (and keeps whatever error was shown), or a fault of the
    storage was caught: the error becomes "Failed to clear cache" and
    [isCached] and the progress stay as they were. *)
Theorem clearCache_resets_or_reports (w : World) :
  fst (run clearCache w) = Resolved tt
  /\ videoSource (hook (snd (run clearCache w))) = videoSource (hook w)
  /\ isLoading (hook (snd (run clearCache w))) = isLoading (hook w)
  /\ tasks (snd (run clearCache w)) = tasks w
  /\ downloads (snd (run clearCache w)) = downloads w
  /\ ((error (hook (snd (run clearCache w))) = error (hook w)
       /\ isCached (hook (snd (run clearCache w))) = false
       /\ cacheProgress (hook (snd (run clearCache w))) = Finite 0)
      \/ (error (hook (snd (run clearCache w))) = Some "Failed to clear cache"
          /\ isCached (hook (snd (run clearCache w))) = isCached (hook w)
          /\ cacheProgress (hook (snd (run clearCache w))) = cacheProgress (hook w))).
Proof.
  unfold clearCache, downloads. cbn.
  destruct (fst (stat cacheDir (ext w))) as [e|[u|u s d t]]; cbn.
  - rewrite !filter_app. cbn. rewrite !app_nil_r. repeat split. now right.
  - rewrite !filter_app. cbn. rewrite !app_nil_r. repeat split. now left.
  - destruct (fst (delete cacheDir _)) as [e|[]]; cbn;
      rewrite !filter_app; cbn; rewrite !app_nil_r; repeat split;
      [now right|now left].
Qed.

(** X9. [checkIfCached] fails soft: it never rejects, it answers
    [fileInfo.exists], and when the storage throws it answers false after
    logging a warning.  It asks the storage for that one [getInfoAsync] and
    changes nothing of the hook's state. *)
Theorem checkIfCached_fails_soft (url : string) (w : World) :
  let filePath := (cacheDir ++ getCacheFilename (fst (now (ext w))) url)%string in
  let answer := fst (stat filePath (snd (now (ext w)))) in
  fst (run (checkIfCached url) w) = Resolved (reportsFile answer)
  /\ hook (snd (run (checkIfCached url) w)) = hook w
  /\ tasks (snd (run (checkIfCached url) w)) = tasks w
  /\ trace (snd (run (checkIfCached url) w))
     = trace w ++ Stat filePath answer
                  :: match answer with
                     | inl e => [Warned "Error checking cache:" e]
                     | inr _ => []
                     end.
Proof.
  unfold checkIfCached. cbn.
  destruct (fst (stat _ _)) as [e|[u|u s d t]]; cbn;
    rewrite <- ?app_assoc; repeat split.
Qed.

(** X10. Without a source, or with caching switched off for the hook or
    for this source, the main effect touches neither the storage nor the
    transport: it only sets the served source, to the identifier as it is
    (or to the empty placeholder). *)
Theorem handleVideoSource_bypass (w : World) :
  source_uri source = None \/ source_uri source = Some ""
  \/ enableCaching mergedOptions = false \/ cachingRefused = true ->
  fst (run handleVideoSource w) = Resolved tt
  /\ uri (videoSource (hook (snd (run handleVideoSource w))))
     = match source_uri source with Some sourceUri => sourceUri | None => "" end
  /\ ext (snd (run handleVideoSource w)) = ext w
  /\ trace (snd (run handleVideoSource w)) = trace w
  /\ tasks (snd (run handleVideoSource w)) = tasks w
  /\ isLoading (hook (snd (run handleVideoSource w))) = isLoading (hook w)
  /\ error (hook (snd (run handleVideoSource w))) = error (hook w)
  /\ isCached (hook (snd (run handleVideoSource w))) = isCached (hook w)
  /\ cacheProgress (hook (snd (run handleVideoSource w))) = cacheProgress (hook w).
Proof.
  intros Hwhy. unfold handleVideoSource.
  destruct (source_uri source) as [sourceUri|] eqn:Hsrc; [|cbn; repeat split].
  destruct (truthy sourceUri) eqn:Htruthy; simpl negb; cbv iota.
  2: { unfold truthy in Htruthy. apply negb_false_iff, String.eqb_eq in Htruthy.
       subst sourceUri. cbn. repeat split. }
  assert (Hoff : negb (enableCaching mergedOptions) || cachingRefused = true).
  { destruct Hwhy as [H|[H|[H|H]]]; try discriminate.
    - injection H as ->. discriminate.
    - now rewrite H.
    - rewrite H. apply orb_true_r. }
  rewrite Hoff. cbn. repeat split.
Qed.

(** X11. A cache hit in the main effect: the served source becomes the path
    of the cache file (resolved again after the check), [isCached] is true,
    nothing is loading any more, and neither a transfer nor a task was
    started. *)
Theorem handleVideoSource_serves_cached (identifier : string) (w : World) :
  source_uri source = Some identifier ->
  truthy identifier = true ->
  enableCaching mergedOptions = true ->
  cachingRefused = false ->
  fst (run (checkIfCached identifier) (checkingCache w)) = Resolved true ->
  let checked := snd (run (checkIfCached identifier) (checkingCache w)) in
  let w' := snd (run handleVideoSource w) in
  fst (run handleVideoSource w) = Resolved tt
  /\ videoSource (hook w')
     = {| uri := cacheDir ++ getCacheFilename (fst (now (ext checked))) identifier;
          useCaching := Some false |}
  /\ isCached (hook w') = true
  /\ isLoading (hook w') = false
  /\ error (hook w') = None
  /\ downloads w' = downloads w
  /\ tasks w' = tasks w.
Proof.
  intros Hsrc Htruthy Hen Href Hcheck. unfold handleVideoSource.
  rewrite Hsrc, Htruthy, Hen, Href. cbn.
  rewrite run_finally, run_try_catch, run_bind.
  unfold checkingCache in *. cbn in *.
  match goal with |- context [run (checkIfCached identifier) ?w1] =>
    pose proof (run_storageOnly (checkIfCached identifier) w1
                  (Uses_checkIfCached identifier)) as Q;
    destruct (run (checkIfCached identifier) w1) as [[cached|e] w2]
  end; simpl in Hcheck; [|discriminate].
  injection Hcheck as ->.
  pose proof (Quiet_downloads _ _ Q) as D. destruct Q as (H & T & _).
  unfold downloads in *. simpl in D, H, T. cbn.
  rewrite H, T. cbn. repeat split. exact D.
Qed.

(** X12. The main effect never rejects, and it always leaves a source to
    play: the identifier itself (the empty placeholder when there is none)
    or a path under the cache directory. *)
Theorem handleVideoSource_always_serves (w : World) :
  fst (run handleVideoSource w) = Resolved tt
  /\ let served := uri (videoSource (hook (snd (run handleVideoSource w)))) in
     match source_uri source with
     | None => served = ""
     | Some identifier =>
         served = identifier
         \/ exists t, served = (cacheDir ++ getCacheFilename t identifier)%string
     end.
Proof.
  unfold handleVideoSource.
  destruct (source_uri source) as [identifier|]; [|cbn; repeat split].
  destruct (truthy identifier) eqn:Htruthy; simpl negb; cbv iota.
  2: { unfold truthy in Htruthy. apply negb_false_iff, String.eqb_eq in Htruthy.
       subst identifier. cbn. split; [reflexivity|]. now left. }
  destruct (negb (enableCaching mergedOptions) || cachingRefused);
    [cbn; split; [reflexivity|now left]|].
  cbn. rewrite run_finally, run_try_catch, run_bind.
  match goal with |- context [run (checkIfCached identifier) ?w1] =>
    destruct (run (checkIfCached identifier) w1) as [[[|]|e] w2]
  end; cbn.
  - split; [reflexivity|]. right. eauto.
  - destruct (enablePreload mergedOptions); cbn.
    + match goal with |- context [call identifier ?w3] =>
        destruct (call_frame identifier w3) as (Hv & _)
      end.
      rewrite Hv. cbn. split; [reflexivity|]. now left.
    + split; [reflexivity|]. now left.
  - split; [reflexivity|]. now left.
Qed.

(** X13. When the cache directory cannot be looked up or created,
    [downloadVideo] gives up at once: it resolves to null with the message
    of that fault, and the only thing that follows the failed attempt is
    the error it logs: no listing, no deletion, no transfer. *)
Theorem downloadVideo_directory_fault (url : string) (e : Thrown) (w : World) :
  fst (run ensureCacheDirectory (starting w)) = Rejected e ->
  let attempted := snd (run ensureCacheDirectory (starting w)) in
  let w' := snd (run (downloadVideo url) w) in
  fst (run (downloadVideo url) w) = Resolved None
  /\ error (hook w') = Some (messageOr "Download failed" e)
  /\ isLoading (hook w') = false
  /\ isCached (hook w') = isCached (hook w)
  /\ ext w' = ext attempted
  /\ trace w' = trace attempted ++ [ErrorLogged "Error downloading video:" e].
Proof.
  intros Hensure. unfold downloadVideo. cbn.
  rewrite run_finally, run_try_catch, run_bind.
  unfold starting in *. cbn in *.
  match goal with |- context [run ensureCacheDirectory ?w1] =>
    pose proof (run_storageOnly ensureCacheDirectory w1 Uses_ensureCacheDirectory) as Q;
    destruct (run ensureCacheDirectory w1) as [[[]|e1] w2]
  end; simpl in Hensure; [discriminate|].
  injection Hensure as ->. destruct Q as (H & _). simpl in H.
  cbn. rewrite H. cbn. repeat split.
Qed.

Lemma last_event_unique (l : list Event) (x y : Event) :
  l ++ [x] = l ++ [y] -> x = y.
Proof. intros H. apply app_inv_head in H. now inversion H. Qed.

(** What a call of [downloadVideo] leaves behind once the transport has
    answered, answer by answer. *)
Lemma downloadVideo_after_transfer
    (url dest : string) (events : list DownloadProgressData)
    (settled : Thrown + option string) (w : World) :
  downloads (snd (run (downloadVideo url) w))
  = downloads w ++ [Downloaded url dest (events, settled)] ->
  isLoading (hook (snd (run (downloadVideo url) w))) = false
  /\ videoSource (hook (snd (run (downloadVideo url) w))) = videoSource (hook w)
  /\ match settled with
     | inr (Some resultUri) =>
         if truthy resultUri then
           fst (run (downloadVideo url) w) = Resolved (Some resultUri)
           /\ isCached (hook (snd (run (downloadVideo url) w))) = true
           /\ cacheProgress (hook (snd (run (downloadVideo url) w))) = Finite 100
           /\ error (hook (snd (run (downloadVideo url) w))) = None
         else
           fst (run (downloadVideo url) w) = Resolved None
           /\ isCached (hook (snd (run (downloadVideo url) w))) = isCached (hook w)
           /\ error (hook (snd (run (downloadVideo url) w))) = Some "Download failed"
     | inr None =>
         fst (run (downloadVideo url) w) = Resolved None
         /\ isCached (hook (snd (run (downloadVideo url) w))) = isCached (hook w)
         /\ error (hook (snd (run (downloadVideo url) w))) = Some "Download failed"
     | inl e =>
         fst (run (downloadVideo url) w) = Resolved None
         /\ isCached (hook (snd (run (downloadVideo url) w))) = isCached (hook w)
         /\ error (hook (snd (run (downloadVideo url) w)))
            = Some (messageOr "Download failed" e)
     end.
Proof.
  unfold downloadVideo, downloads. cbn.
  rewrite run_finally, run_try_catch, run_bind.
  match goal with |- context [run ensureCacheDirectory ?w1] =>
    pose proof (run_storageOnly ensureCacheDirectory w1 Uses_ensureCacheDirectory) as Q1;
    destruct (run ensureCacheDirectory w1) as [[[]|e1] w2]
  end; simpl in Q1; pose proof (Quiet_downloads _ _ Q1) as D1;
    destruct Q1 as (H1 & T1 & _); unfold downloads in D1; simpl in D1, H1, T1.
  2: { cbn. rewrite filter_app, D1. cbn. rewrite app_nil_r.
       intros Hd. now apply snoc_not_same in Hd. }
  rewrite run_bind.
  match goal with |- context [run manageCacheSize ?w1] =>
    pose proof (run_storageOnly manageCacheSize w1 Uses_manageCacheSize) as Q2;
    destruct (run manageCacheSize w1) as [[[]|e2] w3]
  end; simpl in Q2; pose proof (Quiet_downloads _ _ Q2) as D2;
    destruct Q2 as (H2 & T2 & _); unfold downloads in D2; simpl in D2, H2, T2.
  2: { cbn. rewrite filter_app, D2, D1. cbn. rewrite app_nil_r.
       intros Hd. now apply snoc_not_same in Hd. }
  cbn. rewrite run_bind.
  match goal with |- context [run (checkIfCached url) ?w1] =>
    pose proof (run_storageOnly (checkIfCached url) w1 (Uses_checkIfCached url)) as Q3;
    destruct (run (checkIfCached url) w1) as [[cached|e3] w4]
  end; simpl in Q3; pose proof (Quiet_downloads _ _ Q3) as D3;
    destruct Q3 as (H3 & T3 & _); unfold downloads in D3; simpl in D3, H3, T3.
  2: { cbn. rewrite filter_app, D3, D2, D1. cbn. rewrite app_nil_r.
       intros Hd. now apply snoc_not_same in Hd. }
  destruct cached.
  { cbn. rewrite D3, D2, D1. intros Hd. now apply snoc_not_same in Hd. }
  unfold downloadAsync. cbn -[forEach].
  rewrite !run_bind.
  match goal with |- context [run (forEach _ ?evs) ?w1] =>
    destruct (run_progress_callbacks evs w1)
      as (w5 & R5 & V5 & L5 & E5 & C5 & Tr5 & T5 & X5)
  end.
  rewrite R5. clear R5. simpl in V5, L5, E5, C5, Tr5, T5, X5.
  match goal with |- context [downloadResumable url ?dest ?x] =>
    remember (downloadResumable url dest x) as answer eqn:Ha; clear Ha;
    remember dest as filePath eqn:Hp; clear Hp
  end.
  destruct answer as [[events' [e|[resultUri|]]] x']; simpl in *.
  - cbn. rewrite ?V5, ?L5, ?E5, ?C5, ?Tr5, ?T5, ?H3, ?H2, ?H1.
    rewrite ?filter_app, ?D3, ?D2, ?D1. cbn. rewrite ?app_nil_r.
    intros Hd. apply last_event_unique in Hd. inversion Hd; subst.
    repeat split.
  - destruct (truthy resultUri) eqn:Htruthy.
    + cbn. rewrite ?V5, ?L5, ?E5, ?C5, ?Tr5, ?T5, ?H3, ?H2, ?H1.
      rewrite ?filter_app, ?D3, ?D2, ?D1. cbn. rewrite ?app_nil_r.
      intros Hd. apply last_event_unique in Hd. inversion Hd; subst.
      rewrite Htruthy. repeat split.
    + cbn. rewrite ?V5, ?L5, ?E5, ?C5, ?Tr5, ?T5, ?H3, ?H2, ?H1.
      rewrite ?filter_app, ?D3, ?D2, ?D1. cbn. rewrite ?app_nil_r.
      intros Hd. apply last_event_unique in Hd. inversion Hd; subst.
      rewrite Htruthy. repeat split.
  - cbn. rewrite ?V5, ?L5, ?E5, ?C5, ?Tr5, ?T5, ?H3, ?H2, ?H1.
    rewrite ?filter_app, ?D3, ?D2, ?D1. cbn. rewrite ?app_nil_r.
    intros Hd. apply last_event_unique in Hd. inversion Hd; subst.
    repeat split.
Qed.

(** X14. A transfer that ends without a usable uri (no result, or an empty
    uri) is a failure like any other: [downloadVideo] resolves to null, the
    error message is "Download failed", and [isCached] is not set. *)
Theorem downloadVideo_without_uri
    (url dest : string) (events : list DownloadProgressData)
    (result : option string) (w : World) :
  let w' := snd (run (downloadVideo url) w) in
  downloads w' = downloads w ++ [Downloaded url dest (events, inr result)] ->
  result = None \/ result = Some "" ->
  fst (run (downloadVideo url) w) = Resolved None
  /\ error (hook w') = Some "Download failed"
  /\ isLoading (hook w') = false
  /\ isCached (hook w') = isCached (hook w).
Proof.
  intros w' Hd Hresult. subst w'.
  destruct (downloadVideo_after_transfer url dest events (inr result) w Hd)
    as (Hload & _ & Hcase).
  destruct Hresult as [-> | ->]; simpl in Hcase;
    destruct Hcase as (Hout & Hcached & Herr); auto.
Qed.

(** X15. A transfer that returns a uri: [downloadVideo] resolves to that
    uri (not to the path it asked for), [isCached] is true, the progress is
    100 whatever the callbacks reported, no error is shown, nothing is
    loading, and the served source is what it was. *)
Theorem downloadVideo_success
    (url dest resultUri : string) (events : list DownloadProgressData)
    (w : World) :
  let w' := snd (run (downloadVideo url) w) in
  downloads w' = downloads w ++ [Downloaded url dest (events, inr (Some resultUri))] ->
  truthy resultUri = true ->
  fst (run (downloadVideo url) w) = Resolved (Some resultUri)
  /\ isCached (hook w') = true
  /\ cacheProgress (hook w') = Finite 100
  /\ error (hook w') = None
  /\ isLoading (hook w') = false
  /\ videoSource (hook w') = videoSource (hook w).
Proof.
  intros w' Hd Htruthy. subst w'.
  destruct (downloadVideo_after_transfer url dest events (inr (Some resultUri)) w Hd)
    as (Hload & Hsource & Hcase).
  rewrite Htruthy in Hcase. destruct Hcase as (Hout & Hcached & Hprogress & Herr).
  auto 10.
Qed.

(** X16. [preloadVideo] never swaps the source being played and starts no
    task of its own, whatever the storage and the transport answer. *)
Theorem preloadVideo_keeps_source (url : string) (w : World) :
  videoSource (hook (snd (run (preloadVideo url) w))) = videoSource (hook w)
  /\ tasks (snd (run (preloadVideo url) w)) = tasks w.
Proof.
  unfold preloadVideo. destruct (enableCaching mergedOptions); simpl negb; cbv iota.
  - destruct (downloadVideo_run url w) as (result & w' & Hrun & _ & Hsource & Htasks & _).
    rewrite Hrun. simpl. auto.
  - simpl. auto.
Qed.


(** *** What a pass may delete *)

Lemma mapAll_statFile_paths (files : list string) (w : World)
    (fileInfos : list NamedInfo) :
  fst (run (mapAll statFile files) w) = Resolved fileInfos ->
  forall f, In f fileInfos ->
    In (name f) files /\ path f = (cacheDir ++ name f)%string.
Proof.
  revert w fileInfos. induction files as [|file files IH]; intros w infos.
  - simpl. intros H. injection H as <-. intros f [].
  - cbn [mapAll]. rewrite run_bind. unfold statFile at 1. cbn.
    destruct (fst (stat (cacheDir ++ file) (ext w))) as [e|i]; cbn; [discriminate|].
    rewrite run_bind.
    match goal with |- context [run (mapAll statFile files) ?w1] =>
      specialize (IH w1); destruct (run (mapAll statFile files) w1) as [[rest|e] w2]
    end; cbn; [|discriminate].
    intros H. injection H as <-. intros f [<-|Hf].
    + split; [now left|reflexivity].
    + destruct (IH rest eq_refl f Hf) as [Hin Hpath]. split; [now right|exact Hpath].
Qed.

Lemma mapAll_statFile_no_deletion (files : list string) (w : World) :
  exists news,
    trace (snd (run (mapAll statFile files) w)) = trace w ++ news
    /\ forallb (fun ev => negb (isDeletion ev)) news = true.
Proof.
  apply run_appends
    with (allowed := fun op => match op with GetInfoAsync _ => True | _ => False end).
  - intros op w' Hop. destruct op; try contradiction. simpl.
    eexists. split; reflexivity.
  - apply Uses_mapAll. intros file.
    constructor; [exact I|]. intros [e|i]; simpl; constructor.
Qed.

Lemma evict_deletes_its_files (files : list NamedInfo) (currentSize : Q) (w : World) :
  exists news,
    trace (snd (run (evict files currentSize) w)) = trace w ++ news
    /\ forall ev, In ev news ->
         exists f r, In f files /\ ev = Deleted (path f) r.
Proof.
  revert currentSize w.
  induction files as [|file files IH]; intros cur w; simpl.
  - exists []. split; [now rewrite app_nil_r|]. intros ev [].
  - destruct (Qle_bool _ _).
    + exists []. split; [simpl; now rewrite app_nil_r|]. intros ev [].
    + simpl. destruct (fst (delete (path file) (ext w))) as [e|[]] eqn:Hdel; simpl.
      * eexists. split; [reflexivity|]. intros ev [<-|[]]. eauto.
      * match goal with |- context [run (evict files ?c) ?w1] =>
          destruct (IH c w1) as (news & Htrace & Hnews)
        end.
        exists (Deleted (path file) (inr tt) :: news). split.
        -- rewrite Htrace. simpl. rewrite <- app_assoc. reflexivity.
        -- intros ev [<-|Hev]; [eauto|].
           destruct (Hnews ev Hev) as (f & r & Hf & ->). eauto.
Qed.

(** X17. A pass only ever asks for the deletion of files it has just been
    given by the listing of the cache directory: every deletion is of
    [cacheDir] followed by a listed name, whatever the storage answers. *)
Theorem manageCacheSize_deletes_only_listed (w : World) :
  exists news,
    trace (snd (run manageCacheSize w)) = trace w ++ news
    /\ forall filePath r,
         In (Deleted filePath r) news ->
         exists files file,
           fst (listDirectory cacheDir (ext w)) = inr files
           /\ In file files
           /\ filePath = (cacheDir ++ file)%string.
Proof.
  unfold manageCacheSize. rewrite run_try_catch. cbn.
  destruct (fst (listDirectory cacheDir (ext w))) as [e|files] eqn:Hlist; cbn.
  { eexists. split; [rewrite <- app_assoc; reflexivity|].
    intros filePath r [H|[H|[]]]; discriminate. }
  rewrite run_bind.
  match goal with |- context [run (mapAll statFile files) ?w1] =>
    destruct (mapAll_statFile_no_deletion files w1) as (stats & Hstats & Hgood);
    pose proof (mapAll_statFile_paths files w1) as Hpaths;
    destruct (run (mapAll statFile files) w1) as [[infos|e] w2]
  end; simpl in Hstats, Hpaths.
  assert (Hnone : forall filePath r, ~ In (Deleted filePath r) stats).
  { intros filePath r Hin. rewrite forallb_forall in Hgood.
    specialize (Hgood _ Hin). discriminate. }
  2: { assert (Hnone : forall filePath r, ~ In (Deleted filePath r) stats).
       { intros filePath r Hin. rewrite forallb_forall in Hgood.
         specialize (Hgood _ Hin). discriminate. }
       cbn. rewrite Hstats.
       exists (Listed cacheDir (inr files) :: stats ++ [Warned "Error managing cache size:" e]).
       split; [now rewrite <- !app_assoc|].
       intros filePath r [H|H]; [discriminate|].
       apply in_app_or in H as [H|[H|[]]]; [|discriminate].
       now apply Hnone in H. }
  specialize (Hpaths infos eq_refl).
  match goal with |- context [if ?c then _ else _] => destruct c end.
  2: { cbn. rewrite Hstats. exists (Listed cacheDir (inr files) :: stats).
       split; [now rewrite <- !app_assoc|].
       intros filePath r [H|H]; [discriminate|]. now apply Hnone in H. }
  match goal with |- context [run (evict ?fs ?c) w2] =>
    destruct (evict_deletes_its_files fs c w2) as (dels & Hdels & Hfrom);
    assert (Hsub : forall f, In f fs -> In f infos);
    [|destruct (run (evict fs c) w2) as [[[]|e] w3]]
  end.
  { intros f Hf. apply (Permutation_in _ (sortByTime_perm _)) in Hf.
    apply filter_In in Hf as [Hf _]. apply filter_In in Hf as [Hf _]. exact Hf. }
  - cbn in *. rewrite Hdels, Hstats.
    exists (Listed cacheDir (inr files) :: stats ++ dels).
    split; [now rewrite <- !app_assoc|].
    intros filePath r [H|H]; [discriminate|].
    apply in_app_or in H as [H|H]; [now apply Hnone in H|].
    destruct (Hfrom _ H) as (f & r' & Hf & Heq). inversion Heq; subst.
    destruct (Hpaths f (Hsub f Hf)) as [Hin Hpath].
    exists files, (name f). auto.
  - cbn in *. rewrite Hdels, Hstats.
    exists (Listed cacheDir (inr files)
              :: stats ++ dels ++ [Warned "Error managing cache size:" e]).
    split; [now rewrite <- !app_assoc|].
    intros filePath r [H|H]; [discriminate|].
    apply in_app_or in H as [H|H]; [now apply Hnone in H|].
    apply in_app_or in H as [H|[H|[]]]; [|discriminate].
    destruct (Hfrom _ H) as (f & r' & Hf & Heq). inversion Heq; subst.
    destruct (Hpaths f (Hsub f Hf)) as [Hin Hpath].
    exists files, (name f). auto.
Qed.

End MoreLaws.

(** ** The hook on a disk, continued *)

Section MoreOnDisk.

Context {closure : Closure}.

Local Abbreviation World := (World Disk).

(** X18. On a disk, [ensureCacheDirectory] succeeds and the cache directory
    exists afterwards with the entries it had; the directory is created
    only when it was missing, so a second call asks for no creation. *)
Theorem ensureCacheDirectory_on_disk (w : World) :
  root (ext w) = cacheDir ->
  let w' := snd (run ensureCacheDirectory w) in
  fst (run ensureCacheDirectory w) = Resolved tt
  /\ rootExists (ext w') = true
  /\ entries (ext w') = entries (ext w)
  /\ hook w' = hook w
  /\ trace w'
     = trace w ++ Stat cacheDir (inr (diskStat cacheDir (ext w)))
                  :: (if rootExists (ext w) then []
                      else [MadeDirectory cacheDir (inr tt)]).
Proof.
  intros Hroot. unfold ensureCacheDirectory. cbn.
  unfold diskStat. rewrite Hroot, String.eqb_refl.
  destruct (rootExists (ext w)) eqn:Hexists; cbn.
  - rewrite Hexists. repeat split.
  - unfold diskMakeDirectory. rewrite Hroot, String.eqb_refl. cbn.
    rewrite <- app_assoc. repeat split.
Qed.

(** X19. Under the ceiling a pass is harmless: the disk is left exactly as
    it was and no deletion is asked for. *)
Theorem manageCacheSize_under_ceiling (w : World) :
  wellFormed (ext w) ->
  root (ext w) = cacheDir ->
  rootExists (ext w) = true ->
  (directorySizeMB (entries (ext w)) <= maxCacheSize mergedOptions)%Q ->
  let w' := snd (run manageCacheSize w) in
  fst (run manageCacheSize w) = Resolved tt
  /\ ext w' = ext w
  /\ hook w' = hook w
  /\ exists news,
       trace w' = trace w ++ news
       /\ forallb (fun ev => negb (isDeletion ev)) news = true.
Proof.
  intros [Hnd Hnonempty] Hroot Hexists Hunder.
  unfold manageCacheSize. rewrite run_try_catch. cbn.
  unfold diskList. rewrite Hroot, String.eqb_refl, Hexists. cbn.
  rewrite run_bind.
  match goal with |- context [run (mapAll statFile _) ?w1] =>
    destruct (mapAll_statFile_on_disk (entries (ext w)) w1) as (w2 & Hrun & Hext);
    [exact Hroot| |
     destruct (mapAll_statFile_no_deletion (map entryName (entries (ext w))) w1)
       as (stats & Hstats & Hgood);
     pose proof (run_storageOnly (mapAll statFile (map entryName (entries (ext w)))) w1
                   (Uses_mapAll _ _ _ Uses_statFile)) as Q]
  end.
  { intros e He. split.
    - intros Hname. apply Hnonempty. rewrite <- Hname. now apply in_map.
    - now apply lookup_In. }
  rewrite Hrun in *. cbn in Hext, Hstats, Q. destruct Q as (Hhook & _). cbn in Hhook.
  rewrite existing_files_on_disk, dated_files_on_disk.
  rewrite totalSizeOf_sumSizes, <- bytesOf_sumSizes.
  fold (directorySizeMB (entries (ext w))).
  apply Qle_bool_iff in Hunder. rewrite Hunder. cbn.
  split; [reflexivity|]. split; [exact Hext|]. split; [exact Hhook|].
  exists (Listed cacheDir (inr (map entryName (entries (ext w)))) :: stats).
  split; [rewrite Hstats; now rewrite <- app_assoc|exact Hgood].
Qed.

Lemma evicted_subset (files : list NamedInfo) (currentSize : Q) (f : NamedInfo) :
  In f (evicted files currentSize) -> In f files.
Proof.
  destruct (evicted_split files currentSize) as (rest & Hsplit & _).
  intros Hin. rewrite Hsplit. apply in_or_app. now left.
Qed.

(** X20. A pass creates and changes nothing, and it never deletes a
    subdirectory: what is on the disk afterwards was there before, and
    every subdirectory is still there. *)
Theorem manageCacheSize_spares_directories (w : World) :
  wellFormed (ext w) ->
  root (ext w) = cacheDir ->
  rootExists (ext w) = true ->
  stuck (ext w) = [] ->
  let w' := snd (run manageCacheSize w) in
  (forall e, In e (entries (ext w')) -> In e (entries (ext w)))
  /\ (forall e, In e (entries (ext w)) -> entryIsDirectory e = true ->
                In e (entries (ext w'))).
Proof.
  intros Hwf Hroot Hexists Hstuck w'.
  pose proof Hwf as [Hnd _].
  destruct (manageCacheSize_on_disk w Hwf Hroot Hexists Hstuck) as [_ Hentries].
  subst w'. rewrite Hentries.
  destruct (Qle_bool _ _); [split; auto|].
  unfold removeAll. split.
  - intros e He. apply filter_In in He. tauto.
  - intros e He Hdir. apply filter_In. split; [exact He|].
    apply negb_true_iff. destruct (existsb _ _) eqn:Hex; [|reflexivity]. exfalso.
    apply existsb_exists in Hex as (n & Hn & Heq). apply String.eqb_eq in Heq.
    subst n. apply in_map_iff in Hn as (f & Hname & Hf).
    apply evicted_subset in Hf.
    apply (Permutation_in _ (sortByTime_perm _)) in Hf.
    apply in_map_iff in Hf as (e' & <- & He'). cbn in Hname.
    apply filter_In in He' as [He' Hreg].
    assert (Hsame : e' = e).
    { pose proof (lookup_In _ _ Hnd He') as H1.
      pose proof (lookup_In _ _ Hnd He) as H2.
      rewrite Hname in H1. congruence. }
    subst e'. rewrite Hdir in Hreg. discriminate.
Qed.


(** *** Clearing, and finding again *)

Lemma append_empty (s : string) : (s ++ "")%string = s.
Proof. induction s as [|c s IH]; simpl; [reflexivity|]. now rewrite IH. Qed.

Lemma checkIfCached_on_disk (url : string) (w : World) :
  fst (run (checkIfCached url) w)
  = Resolved
      (reportsFile
         (inr (diskStat (cacheDir ++ getCacheFilename (clock (ext w)) url) (ext w))))
  /\ entries (ext (snd (run (checkIfCached url) w))) = entries (ext w)
  /\ rootExists (ext (snd (run (checkIfCached url) w))) = rootExists (ext w)
  /\ root (ext (snd (run (checkIfCached url) w))) = root (ext w)
  /\ network (ext (snd (run (checkIfCached url) w))) = network (ext w).
Proof.
  unfold checkIfCached. cbn.
  match goal with |- context [diskStat ?p ?d] =>
    change (diskStat p d)
      with (diskStat (cacheDir ++ getCacheFilename (clock (ext w)) url) (ext w))
  end.
  destruct (diskStat _ (ext w)); cbn; repeat split.
Qed.

(** X21. Clearing the cache of a disk: the directory and everything in it
    are gone, [isCached] is false, and the existence check of any
    identifier answers false afterwards. *)
Theorem clearCache_then_miss (url : string) (w : World) :
  root (ext w) = cacheDir ->
  existsb (String.eqb cacheDir) (stuck (ext w)) = false ->
  rootExists (ext w) = true \/ entries (ext w) = [] ->
  let w' := snd (run clearCache w) in
  fst (run clearCache w) = Resolved tt
  /\ entries (ext w') = []
  /\ rootExists (ext w') = false
  /\ isCached (hook w') = false
  /\ fst (run (checkIfCached url) w') = Resolved false.
Proof.
  intros Hroot Hstuck Hshape w'.
  assert (Hmain : fst (run clearCache w) = Resolved tt
                  /\ entries (ext w') = [] /\ rootExists (ext w') = false
                  /\ isCached (hook w') = false /\ root (ext w') = cacheDir).
  { subst w'. unfold clearCache. cbn. unfold diskStat.
    rewrite Hroot, String.eqb_refl.
    destruct (rootExists (ext w)) eqn:Hexists; cbn.
    - unfold diskDelete. rewrite Hstuck, Hroot, String.eqb_refl, Hexists. cbn.
      repeat split.
    - destruct Hshape as [H|H]; [discriminate|]. repeat split; assumption. }
  destruct Hmain as (Hout & Hentries & Hexists & Hcached & Hroot').
  repeat split; try assumption.
  destruct (checkIfCached_on_disk url w') as (Hcheck & _).
  rewrite Hcheck. unfold diskStat. rewrite Hroot', Hexists, Hentries.
  destruct (_ =? cacheDir); [reflexivity|].
  destruct (stripPrefix _ _); reflexivity.
Qed.

(** X22. An identifier whose final segment is nothing but a query string
    with a '.' in it resolves to the empty key, so its cache path is the
    cache directory itself: as soon as that directory exists the existence
    check answers true, whatever the cache holds. *)
Theorem checkIfCached_query_only (url query : string) (w : World) :
  root (ext w) = cacheDir ->
  rootExists (ext w) = true ->
  lastOf (split "/" url) = String "?" query ->
  includes "." query = true ->
  fst (run (checkIfCached url) w) = Resolved true.
Proof.
  intros Hroot Hexists Hseg Hdot.
  destruct (checkIfCached_on_disk url w) as (Hcheck & _). rewrite Hcheck.
  rewrite getCacheFilename_cases, Hseg. simpl includes. rewrite Hdot.
  unfold strippedSegment. rewrite Hseg. simpl firstOf.
  rewrite append_empty. unfold diskStat.
  rewrite Hroot, String.eqb_refl, Hexists. reflexivity.
Qed.

(** *** Downloading, and finding again *)

(** The storage operations of a disk never move the cache directory and
    never change the network. *)
Lemma run_keeps_disk {A : Type} (p : Prog A) (w : World) :
  Uses storageOnly p ->
  root (ext (snd (run p w))) = root (ext w)
  /\ network (ext (snd (run p w))) = network (ext w).
Proof.
  intros Hp. revert w.
  induction Hp as [a|e|op k Hop Hk IH]; intros w; try (split; reflexivity).
  cbn [run].
  destruct (IH (fst (perform op w)) (snd (perform op w))) as [Hr Hn].
  rewrite Hr, Hn. clear IH Hr Hn Hk.
  destruct op; try contradiction; cbn; try (split; reflexivity).
  - unfold diskMakeDirectory. destruct (_ =? _); split; reflexivity.
  - unfold diskDelete.
    destruct (existsb _ _); [split; reflexivity|].
    destruct (_ =? _); [destruct (rootExists _); split; reflexivity|].
    destruct (stripPrefix _ _); [|split; reflexivity].
    destruct (lookup _ _); split; reflexivity.
Qed.

Lemma lookup_fresh (file : string) (es : list Entry) (e : Entry) :
  entryName e = file -> lookup file (without file es ++ [e]) = Some e.
Proof.
  intros Hname. unfold lookup, without.
  induction es as [|x es IH]; simpl.
  - now rewrite Hname, String.eqb_refl.
  - destruct (entryName x =? file) eqn:Hx; simpl; [exact IH|].
    now rewrite Hx.
Qed.

(** X23. Download, then look up.  On a disk whose transport leaves the
    bytes at the destination, for an identifier with an extension and a
    non-empty key: once [downloadVideo] has resolved to a path, the
    existence check of the same identifier answers true. *)
Theorem downloadVideo_then_cached (url localPath : string) (w : World) :
  root (ext w) = cacheDir ->
  includes "." (lastOf (split "/" url)) = true ->
  strippedSegment url <> "" ->
  leaves (network (ext w) url) <> None ->
  fst (run (downloadVideo url) w) = Resolved (Some localPath) ->
  fst (run (checkIfCached url) (snd (run (downloadVideo url) w))) = Resolved true.
Proof.
  intros Hroot Hdot Hkey Hleaves.
  assert (Hname : forall t, getCacheFilename t url = strippedSegment url).
  { intros t. now rewrite getCacheFilename_cases, Hdot. }
  assert (Hhit : forall w0 : World,
             root (ext w0) = cacheDir ->
             reportsFile (inr (diskStat (cacheDir ++ strippedSegment url) (ext w0))) = true ->
             fst (run (checkIfCached url) w0) = Resolved true).
  { intros w0 Hr Hs. destruct (checkIfCached_on_disk url w0) as (Hc & _).
    now rewrite Hc, Hname, Hs. }
  unfold downloadVideo. cbn.
  rewrite run_finally, run_try_catch, run_bind.
  match goal with |- context [run ensureCacheDirectory ?w1] =>
    destruct (run_keeps_disk ensureCacheDirectory w1 Uses_ensureCacheDirectory)
      as [R1 N1];
    destruct (run ensureCacheDirectory w1) as [[[]|e1] w2]
  end; cbn in R1, N1; [|cbn; discriminate].
  rewrite run_bind.
  match goal with |- context [run manageCacheSize ?w1] =>
    destruct (run_keeps_disk manageCacheSize w1 Uses_manageCacheSize) as [R2 N2];
    destruct (run manageCacheSize w1) as [[[]|e2] w3]
  end; cbn in R2, N2; [|cbn; discriminate].
  cbn. rewrite run_bind.
  match goal with |- context [run (checkIfCached url) ?w1] =>
    destruct (checkIfCached_on_disk url w1) as (C3 & En3 & Ex3 & R3 & N3);
    destruct (run (checkIfCached url) w1) as [[cached|e3] w4]
  end; cbn in C3, En3, Ex3, R3, N3; [|discriminate].
  injection C3 as C3. rewrite Hname in *.
  destruct cached.
  { cbn. intros _. apply Hhit; cbn; [congruence|].
    unfold reportsFile, diskStat in *. cbn in C3 |- *.
    rewrite En3, Ex3, R3. symmetry. exact C3. }
  unfold downloadAsync. cbn -[forEach].
  rewrite !run_bind.
  match goal with |- context [run (forEach _ ?evs) ?w1] =>
    destruct (run_progress_callbacks evs w1)
      as (w5 & R5 & V5 & L5 & E5 & C5 & Tr5 & T5 & X5)
  end.
  rewrite R5. clear R5 V5 L5 E5 C5 Tr5 T5. cbn in X5.
  unfold diskDownload in *. cbn in X5.
  assert (Hr4 : root (ext w4) = cacheDir) by congruence.
  assert (Hn4 : network (ext w4) url = network (ext w) url) by congruence.
  rewrite Hr4, Hn4, stripPrefix_append in X5.
  rewrite Hn4.
  destruct (network (ext w) url) as [reports [bytes|] settles]; cbn in *;
    [|congruence].
  destruct settles as [e|[resultUri|]]; cbn; try discriminate.
  destruct (truthy resultUri); cbn; [|discriminate].
  intros _. apply Hhit; cbn; rewrite X5; cbn; [exact Hr4|].
  unfold diskStat. cbn. rewrite Hr4.
  destruct (String.eqb_spec (cacheDir ++ strippedSegment url) cacheDir) as [Heq|_].
  { apply append_eq_self in Heq. contradiction. }
  rewrite stripPrefix_append.
  match goal with |- context [find ?f (without ?n ?es ++ [?e])] =>
    change (find f (without n es ++ [e])) with (lookup n (without n es ++ [e]));
    rewrite (lookup_fresh n es e eq_refl)
  end.
  reflexivity.
Qed.

End MoreOnDisk.

(** ** A preload in the background *)

Section Background.

Context {E : Type} {gateway : StorageGateway E} {closure : Closure}.

Local Abbreviation World := (World E).

Lemma perform_alike (onSpawn1 onSpawn2 : string -> World -> World)
    (op : Op) (v1 v2 : World) :
  match op with Spawn _ => False | _ => True end -> Alike v1 v2 ->
  fst (performWith onSpawn1 op v1) = fst (performWith onSpawn2 op v2)
  /\ Alike (snd (performWith onSpawn1 op v1)) (snd (performWith onSpawn2 op v2)).
Proof.
  intros Hop (Hext & Htrace & Hv & He & Hp & Hc).
  destruct op; try contradiction; cbn; rewrite ?Hext, ?Htrace;
    unfold Alike; cbn; rewrite ?Hext, ?Htrace; auto 10.
Qed.

(** A task that starts no other task does the same in two worlds alike. *)
Lemma run_alike {A : Type} (n : nat) (p : Prog A) :
  Budget n p ->
  forall v1 v2 : World,
    Alike v1 v2 ->
    fst (run p v1) = fst (run p v2) /\ Alike (snd (run p v1)) (snd (run p v2)).
Proof.
  intros Hp.
  induction Hp as [n a|n e|n op k Hop Hk IH|n u dest k Hk IH]; intros v1 v2 Hv.
  - split; [reflexivity|exact Hv].
  - split; [reflexivity|exact Hv].
  - cbn [run].
    assert (Hop' : match op with Spawn _ => False | _ => True end)
      by (destruct op; try exact I; contradiction).
    destruct (perform_alike call call op v1 v2 Hop' Hv) as [Hr Hv'].
    unfold perform. rewrite Hr. apply IH. exact Hv'.
  - cbn [run].
    destruct (perform_alike call call (DownloadAsync u dest) v1 v2 I Hv) as [Hr Hv'].
    unfold perform. rewrite Hr. apply IH. exact Hv'.
Qed.

(** Running what is left after the synchronous start is running the whole. *)
Lemma run_after_start {A : Type} (onSpawn : string -> World -> World)
    (n : nat) (p : Prog A) :
  Budget n p ->
  forall v : World,
    run (fst (runSyncWith onSpawn p v)) (snd (runSyncWith onSpawn p v)) = run p v.
Proof.
  intros Hp.
  induction Hp as [n a|n e|n op k Hop Hk IH|n u dest k Hk IH]; intros v;
    try reflexivity.
  cbn [runSyncWith]. destruct (awaited op); [reflexivity|].
  rewrite IH. cbn [run]. unfold perform.
  destruct op; try contradiction; reflexivity.
Qed.

Lemma background_preload_run (identifier : string) (w : World) :
  source_uri source = Some identifier ->
  truthy identifier = true ->
  enableCaching mergedOptions = true ->
  cachingRefused = false ->
  enablePreload mergedOptions = true ->
  fst (run (checkIfCached identifier) (checkingCache w)) = Resolved false ->
  let served := snd (run handleVideoSource w) in
  exists preload,
    tasks served = tasks w ++ [preload]
    /\ uri (videoSource (hook served)) = identifier
    /\ uri (videoSource (hook (snd (run preload served)))) = identifier
    /\ exists result,
         fst (run preload served) = Resolved result
         /\ (result <> None ->
             isCached (hook (snd (run preload served))) = true
             /\ error (hook (snd (run preload served))) = None).
Proof.
  intros Hsrc Htruthy Hen Href Hpre Hcheck. unfold handleVideoSource.
  rewrite Hsrc, Htruthy, Hen, Href. cbn.
  rewrite run_finally, run_try_catch, run_bind.
  unfold checkingCache in Hcheck. cbn in Hcheck.
  match goal with |- context [run (checkIfCached identifier) ?w1] =>
    pose proof (run_storageOnly (checkIfCached identifier) w1
                  (Uses_checkIfCached identifier)) as Q;
    destruct (run (checkIfCached identifier) w1) as [[cached|e] w2]
  end; simpl in Hcheck; [|discriminate].
  injection Hcheck as ->. destruct Q as (_ & T & _). simpl in T.
  rewrite Hpre. cbn.
  match goal with |- context [call identifier ?w3] => set (missed := w3) end.
  set (begun := runSyncWith (fun _ w' => w') (downloadVideo identifier) missed).
  exists (fst begun).
  assert (Hcall : call identifier missed = addTask (fst begun) (snd begun))
    by reflexivity.
  rewrite Hcall. cbn [tasks addTask withHook hook videoSource].
  destruct (runSyncWith_budget (fun _ w' => w') identifier 1 _
              (Budget_downloadVideo identifier) missed) as (Hb & _ & Htasks).
  fold begun in Hb, Htasks.
  split. { rewrite Htasks. subst missed. cbn. now rewrite T. }
  assert (Hframe : videoSource (hook (snd begun)) = videoSource (hook missed))
    by reflexivity.
  split. { rewrite Hframe. reflexivity. }
  match goal with |- context [run (fst begun) ?v] => set (served := v) end.
  assert (Halike : Alike served (snd begun)).
  { subst served. unfold Alike. cbn. auto 10. }
  destruct (run_alike 1 (fst begun) Hb served (snd begun) Halike) as [Hout Hend].
  pose proof (run_after_start (fun _ w' => w') 1 _
                (Budget_downloadVideo identifier) missed) as Hwhole.
  fold begun in Hwhole. clearbody served. clearbody begun.
  rewrite Hwhole in Hout, Hend.
  destruct (downloadVideo_run identifier missed)
    as (result & settled & Hrun & _ & Hsource & _ & Hcases).
  rewrite Hrun in Hout, Hend. cbn in Hout, Hend.
  destruct Hend as (_ & _ & Hv & He & _ & Hc).
  split. { rewrite Hv, Hsource. reflexivity. }
  exists result. split; [exact Hout|].
  intros Hsome. rewrite Hc, He.
  destruct Hcases as [(_ & Herr & Hcached & _) | (Hnone & _)]; [auto|contradiction].
Qed.

(** X24. No hot swap.  On a miss with preload enabled the main effect
    leaves one pending task.  When that task has run to its end, the served
    source is still the remote identifier, whatever the outcome; and if the
    task resolved to a path, [isCached] is true and no error is shown: the
    cached copy is for the next request. *)
Theorem background_preload_keeps_remote_source (identifier : string) (w : World) :
  source_uri source = Some identifier ->
  truthy identifier = true ->
  enableCaching mergedOptions = true ->
  cachingRefused = false ->
  enablePreload mergedOptions = true ->
  fst (run (checkIfCached identifier) (checkingCache w)) = Resolved false ->
  let served := snd (run handleVideoSource w) in
  exists preload,
    tasks served = tasks w ++ [preload]
    /\ uri (videoSource (hook served)) = identifier
    /\ uri (videoSource (hook (snd (run preload served)))) = identifier
    /\ exists result,
         fst (run preload served) = Resolved result
         /\ (result <> None ->
             isCached (hook (snd (run preload served))) = true
             /\ error (hook (snd (run preload served))) = None).
Proof. exact (background_preload_run identifier w). Qed.

End Background.

Section Component.

Context {E : Type} {gateway : StorageGateway E}.

(** X25. [SimpleCachedVideo] with caching on, and a video that is not in
    the cache: when the preload it always enables has resolved to a local
    path, the completion effect fires, and what it passes to
    [onCacheComplete] is the remote url still being served, not the local
    path. *)
Theorem onCacheComplete_receives_remote_url
    (directory videoUrl : string) (w : World E) :
  truthy videoUrl = true ->
  fst (@run E gateway (simpleCachedVideo directory videoUrl true) bool
         (@checkIfCached (simpleCachedVideo directory videoUrl true) videoUrl)
         (@checkingCache E gateway (simpleCachedVideo directory videoUrl true) w))
  = Resolved false ->
  let component := simpleCachedVideo directory videoUrl true in
  let served := snd (@run E gateway component unit (@handleVideoSource component) w) in
  exists preload,
    tasks served = tasks w ++ [preload]
    /\ forall localPath,
         fst (@run E gateway component (option string) preload served)
         = Resolved (Some localPath) ->
         cacheCompleteCall
           (hook (snd (@run E gateway component (option string) preload served)))
           true
         = Some videoUrl.
Proof.
  intros Htruthy Hmiss component served.
  destruct (@background_preload_run E gateway component videoUrl w
              eq_refl Htruthy eq_refl eq_refl eq_refl Hmiss)
    as (preload & Htasks & _ & Huri & result & Hout & Hdone).
  exists preload. split; [exact Htasks|].
  intros localPath Hpath. fold served in Hout, Hdone, Huri.
  rewrite Hout in Hpath. injection Hpath as ->.
  destruct Hdone as [Hcached _]; [discriminate|].
  unfold cacheCompleteCall. rewrite Hcached, Huri, Htruthy. reflexivity.
Qed.

End Component.

(** ** The further properties, at the scenarios *)

Lemma ensureCacheDirectory_on_disk_witness :
  root (ext emptyCacheWorld) = @cacheDir hook500
  /\ rootExists
       (ext (snd (@run Disk DiskGateway hook500 unit (@ensureCacheDirectory hook500)
                    emptyCacheWorld))) = true.
Proof.
  split; [reflexivity|].
  exact (proj1 (proj2 (@ensureCacheDirectory_on_disk hook500 emptyCacheWorld
                         eq_refl))).
Defined.

Lemma manageCacheSize_under_ceiling_witness :
  wellFormed (ext fiveFilesWorld)
  /\ root (ext fiveFilesWorld) = @cacheDir hook500
  /\ rootExists (ext fiveFilesWorld) = true
  /\ (directorySizeMB (entries (ext fiveFilesWorld))
      <= maxCacheSize (@mergedOptions hook500))%Q
  /\ ext (snd (@run Disk DiskGateway hook500 unit (@manageCacheSize hook500)
                 fiveFilesWorld))
     = ext fiveFilesWorld.
Proof.
  assert (Hunder : (directorySizeMB (entries (ext fiveFilesWorld))
                    <= maxCacheSize (@mergedOptions hook500))%Q)
    by (vm_compute; discriminate).
  split; [exact fiveFilesWorld_wellFormed|].
  split; [reflexivity|]. split; [reflexivity|]. split; [exact Hunder|].
  exact (proj1 (proj2 (@manageCacheSize_under_ceiling hook500 fiveFilesWorld
                         fiveFilesWorld_wellFormed eq_refl eq_refl Hunder))).
Defined.

Lemma handleVideoSource_bypass_witness :
  (source_uri (@source (simpleCachedVideo "file:///data/" remoteVideo false)) = None
   \/ source_uri (@source (simpleCachedVideo "file:///data/" remoteVideo false)) = Some ""
   \/ enableCaching (@mergedOptions (simpleCachedVideo "file:///data/" remoteVideo false))
      = false
   \/ @cachingRefused (simpleCachedVideo "file:///data/" remoteVideo false) = true)
  /\ trace (snd (@run Disk DiskGateway
                   (simpleCachedVideo "file:///data/" remoteVideo false) unit
                   (@handleVideoSource (simpleCachedVideo "file:///data/" remoteVideo false))
                   cachedVideoWorld))
     = trace cachedVideoWorld.
Proof.
  assert (Hoff : source_uri (@source (simpleCachedVideo "file:///data/" remoteVideo false)) = None
   \/ source_uri (@source (simpleCachedVideo "file:///data/" remoteVideo false)) = Some ""
   \/ enableCaching (@mergedOptions (simpleCachedVideo "file:///data/" remoteVideo false))
      = false
   \/ @cachingRefused (simpleCachedVideo "file:///data/" remoteVideo false) = true).
  { right. right. left. reflexivity. }
  split; [exact Hoff|].
  exact (proj1 (proj2 (proj2 (proj2
           (@handleVideoSource_bypass Disk DiskGateway
              (simpleCachedVideo "file:///data/" remoteVideo false)
              cachedVideoWorld Hoff))))).
Defined.

Lemma handleVideoSource_serves_cached_witness :
  source_uri (@source hook500) = Some remoteVideo
  /\ truthy remoteVideo = true
  /\ enableCaching (@mergedOptions hook500) = true
  /\ @cachingRefused hook500 = false
  /\ fst (@run Disk DiskGateway hook500 bool (@checkIfCached hook500 remoteVideo)
            (@checkingCache Disk DiskGateway hook500 cachedVideoWorld))
     = Resolved true
  /\ isCached (hook (snd (@run Disk DiskGateway hook500 unit
                            (@handleVideoSource hook500) cachedVideoWorld)))
     = true.
Proof.
  split; [reflexivity|]. split; [reflexivity|]. split; [reflexivity|].
  split; [reflexivity|]. split; [reflexivity|].
  exact (proj1 (proj2 (proj2
           (@handleVideoSource_serves_cached Disk DiskGateway hook500 remoteVideo
              cachedVideoWorld eq_refl eq_refl eq_refl eq_refl eq_refl)))).
Defined.

Lemma downloadVideo_directory_fault_witness :
  fst (@run unit brokenStorage hook500 unit (@ensureCacheDirectory hook500)
         (@starting unit brokenStorage hook500 brokenStorageWorld))
  = Rejected (ErrorObject "Storage unavailable")
  /\ fst (@run unit brokenStorage hook500 (option string)
            (@downloadVideo hook500 remoteVideo) brokenStorageWorld)
     = Resolved None.
Proof.
  split; [reflexivity|].
  exact (proj1 (@downloadVideo_directory_fault unit brokenStorage hook500
                  remoteVideo (ErrorObject "Storage unavailable")
                  brokenStorageWorld eq_refl)).
Defined.

Lemma downloadVideo_without_uri_witness :
  downloads (snd (@run Disk DiskGateway hook500 (option string)
                    (@downloadVideo hook500 remoteVideo) silentNetworkWorld))
  = downloads silentNetworkWorld
      ++ [Downloaded remoteVideo "file:///data/videos/video.mp4" ([], inr None)]
  /\ (@None string = None \/ @None string = Some "")
  /\ error (hook (snd (@run Disk DiskGateway hook500 (option string)
                         (@downloadVideo hook500 remoteVideo) silentNetworkWorld)))
     = Some "Download failed".
Proof.
  assert (Hd : downloads (snd (@run Disk DiskGateway hook500 (option string)
                    (@downloadVideo hook500 remoteVideo) silentNetworkWorld))
  = downloads silentNetworkWorld
      ++ [Downloaded remoteVideo "file:///data/videos/video.mp4" ([], inr None)])
    by (vm_compute; reflexivity).
  split; [exact Hd|]. split; [now left|].
  exact (proj1 (proj2 (@downloadVideo_without_uri Disk DiskGateway hook500
                         remoteVideo "file:///data/videos/video.mp4" [] None
                         silentNetworkWorld Hd (or_introl eq_refl)))).
Defined.

Lemma downloadVideo_success_witness :
  downloads (snd (@run Disk DiskGateway hook500 (option string)
                    (@downloadVideo hook500 remoteVideo) emptyCacheWorld))
  = downloads emptyCacheWorld
      ++ [Downloaded remoteVideo "file:///data/videos/video.mp4"
            (reported (delivering remoteVideo),
             inr (Some "file:///data/videos/video.mp4"))]
  /\ truthy "file:///data/videos/video.mp4" = true
  /\ cacheProgress (hook (snd (@run Disk DiskGateway hook500 (option string)
                                 (@downloadVideo hook500 remoteVideo) emptyCacheWorld)))
     = Finite 100.
Proof.
  assert (Hd : downloads (snd (@run Disk DiskGateway hook500 (option string)
                    (@downloadVideo hook500 remoteVideo) emptyCacheWorld))
  = downloads emptyCacheWorld
      ++ [Downloaded remoteVideo "file:///data/videos/video.mp4"
            (reported (delivering remoteVideo),
             inr (Some "file:///data/videos/video.mp4"))])
    by (vm_compute; reflexivity).
  split; [exact Hd|]. split; [reflexivity|].
  exact (proj1 (proj2 (proj2
           (@downloadVideo_success Disk DiskGateway hook500 remoteVideo
              "file:///data/videos/video.mp4" "file:///data/videos/video.mp4"
              (reported (delivering remoteVideo)) emptyCacheWorld Hd eq_refl)))).
Defined.

Lemma subdirectoryWorld_wellFormed : wellFormed (ext subdirectoryWorld).
Proof.
  split.
  - simpl. repeat (constructor; [simpl; intuition discriminate|]). constructor.
  - simpl. intuition discriminate.
Defined.

Lemma manageCacheSize_spares_directories_witness :
  wellFormed (ext subdirectoryWorld)
  /\ root (ext subdirectoryWorld) = @cacheDir hook100
  /\ rootExists (ext subdirectoryWorld) = true
  /\ stuck (ext subdirectoryWorld) = []
  /\ In {| entryName := "thumbs"; entrySize := 4096; entryIsDirectory := true;
           entryTime := 0 |}
        (entries (ext (snd (@run Disk DiskGateway hook100 unit
                              (@manageCacheSize hook100) subdirectoryWorld)))).
Proof.
  split; [exact subdirectoryWorld_wellFormed|].
  split; [reflexivity|]. split; [reflexivity|]. split; [reflexivity|].
  apply (proj2 (@manageCacheSize_spares_directories hook100 subdirectoryWorld
                  subdirectoryWorld_wellFormed eq_refl eq_refl eq_refl)).
  - left. reflexivity.
  - reflexivity.
Defined.

Lemma clearCache_then_miss_witness :
  root (ext cachedVideoWorld) = @cacheDir hook500
  /\ existsb (String.eqb (@cacheDir hook500)) (stuck (ext cachedVideoWorld)) = false
  /\ (rootExists (ext cachedVideoWorld) = true \/ entries (ext cachedVideoWorld) = [])
  /\ fst (@run Disk DiskGateway hook500 bool (@checkIfCached hook500 remoteVideo)
            (snd (@run Disk DiskGateway hook500 unit (@clearCache hook500)
                    cachedVideoWorld)))
     = Resolved false.
Proof.
  split; [reflexivity|]. split; [reflexivity|]. split; [left; reflexivity|].
  exact (proj2 (proj2 (proj2 (proj2
           (@clearCache_then_miss hook500 remoteVideo cachedVideoWorld
              eq_refl eq_refl (or_introl eq_refl)))))).
Defined.

Lemma checkIfCached_query_only_witness :
  root (ext emptyCacheWorld) = @cacheDir hook500
  /\ rootExists (ext emptyCacheWorld) = true
  /\ lastOf (split "/" "https://cdn.example/?v=1.2") = String "?" "v=1.2"
  /\ includes "." "v=1.2" = true
  /\ fst (@run Disk DiskGateway hook500 bool
            (@checkIfCached hook500 "https://cdn.example/?v=1.2") emptyCacheWorld)
     = Resolved true.
Proof.
  split; [reflexivity|]. split; [reflexivity|]. split; [reflexivity|].
  split; [reflexivity|].
  exact (@checkIfCached_query_only hook500 "https://cdn.example/?v=1.2" "v=1.2"
           emptyCacheWorld eq_refl eq_refl eq_refl eq_refl).
Defined.

Lemma downloadVideo_then_cached_witness :
  root (ext emptyCacheWorld) = @cacheDir hook500
  /\ includes "." (lastOf (split "/" remoteVideo)) = true
  /\ strippedSegment remoteVideo <> ""
  /\ leaves (network (ext emptyCacheWorld) remoteVideo) <> None
  /\ fst (@run Disk DiskGateway hook500 (option string)
            (@downloadVideo hook500 remoteVideo) emptyCacheWorld)
     = Resolved (Some "file:///data/videos/video.mp4")
  /\ fst (@run Disk DiskGateway hook500 bool (@checkIfCached hook500 remoteVideo)
            (snd (@run Disk DiskGateway hook500 (option string)
                    (@downloadVideo hook500 remoteVideo) emptyCacheWorld)))
     = Resolved true.
Proof.
  assert (Hkey : strippedSegment remoteVideo <> "") by discriminate.
  assert (Hleaves : leaves (network (ext emptyCacheWorld) remoteVideo) <> None)
    by discriminate.
  assert (Hout : fst (@run Disk DiskGateway hook500 (option string)
                        (@downloadVideo hook500 remoteVideo) emptyCacheWorld)
                 = Resolved (Some "file:///data/videos/video.mp4"))
    by (vm_compute; reflexivity).
  split; [reflexivity|]. split; [reflexivity|]. split; [exact Hkey|].
  split; [exact Hleaves|]. split; [exact Hout|].
  exact (@downloadVideo_then_cached hook500 remoteVideo
           "file:///data/videos/video.mp4" emptyCacheWorld
           eq_refl eq_refl Hkey Hleaves Hout).
Defined.

Lemma background_preload_keeps_remote_source_witness :
  source_uri (@source preloadingHook) = Some remoteVideo
  /\ truthy remoteVideo = true
  /\ enableCaching (@mergedOptions preloadingHook) = true
  /\ @cachingRefused preloadingHook = false
  /\ enablePreload (@mergedOptions preloadingHook) = true
  /\ fst (@run Disk DiskGateway preloadingHook bool
            (@checkIfCached preloadingHook remoteVideo)
            (@checkingCache Disk DiskGateway preloadingHook emptyCacheWorld))
     = Resolved false
  /\ exists preload,
       tasks (snd (@run Disk DiskGateway preloadingHook unit
                     (@handleVideoSource preloadingHook) emptyCacheWorld))
       = tasks emptyCacheWorld ++ [preload].
Proof.
  split; [reflexivity|]. split; [reflexivity|]. split; [reflexivity|].
  split; [reflexivity|]. split; [reflexivity|]. split; [reflexivity|].
  destruct (@background_preload_keeps_remote_source Disk DiskGateway preloadingHook
              remoteVideo emptyCacheWorld
              eq_refl eq_refl eq_refl eq_refl eq_refl eq_refl)
    as (preload & Htasks & _).
  exists preload. exact Htasks.
Defined.

Lemma onCacheComplete_receives_remote_url_witness :
  truthy remoteVideo = true
  /\ fst (@run Disk DiskGateway (simpleCachedVideo "file:///data/" remoteVideo true) bool
            (@checkIfCached (simpleCachedVideo "file:///data/" remoteVideo true)
               remoteVideo)
            (@checkingCache Disk DiskGateway
               (simpleCachedVideo "file:///data/" remoteVideo true) emptyCacheWorld))
     = Resolved false
  /\ exists preload,
       tasks (snd (@run Disk DiskGateway
                     (simpleCachedVideo "file:///data/" remoteVideo true) unit
                     (@handleVideoSource
                        (simpleCachedVideo "file:///data/" remoteVideo true))
                     emptyCacheWorld))
       = tasks emptyCacheWorld ++ [preload].
Proof.
  split; [reflexivity|]. split; [reflexivity|].
  destruct (@onCacheComplete_receives_remote_url Disk DiskGateway "file:///data/"
              remoteVideo emptyCacheWorld eq_refl eq_refl)
    as (preload & Htasks & _).
  exists preload. exact Htasks.
Defined.

(** The example component on the empty cache, its preload resumed to the
    end: caching is reported as complete, and the callback is given the
    remote url. *)
Example simpleCachedVideo_completion :
  let component := simpleCachedVideo "file:///data/" remoteVideo true in
  let served := snd (@run Disk DiskGateway component unit
                       (@handleVideoSource component) emptyCacheWorld) in
  let settled := @schedule Disk DiskGateway component [0; 0; 0; 0; 0]%nat served in
  tasks settled = [Ret (Some "file:///data/videos/video.mp4")]
  /\ isCached (hook settled) = true
  /\ cacheCompleteCall (hook settled) true = Some remoteVideo.
Proof. vm_compute. repeat split. Qed.
